(** * The Java code generator of Blockly (generators/java.js)

    A shallow embedding of [Blockly.Java]: the precedence table, the
    import registry, the type mapper, the per-run initialisation, the
    final assembly of helper definitions and fields, the comment
    scrubber and the compilation-unit assembler.

    JavaScript strings are modelled as [string], a sequence of code
    units below 256; [String.le] is then the order that [<] and [>]
    compute on JavaScript strings.  Objects used as dictionaries are
    association lists in insertion order; [for..in] visits the
    property names that are array indices first ([for_in]).  A
    dictionary that is only looked up is a [gmap].  An object literal
    also answers for the names it inherits from [Object.prototype]
    ([Js.inherited]); an object made by [Object.create(null)] does
    not. *)

From Stdlib Require Import ZArith Ascii.
From stdpp Require Import base tactics option list strings sorting gmap pretty.

Local Open Scope Z_scope.

(** ** Order of operation ENUMs (java.js, lines 63-89) *)

Module Order.

Definition ORDER_ATOMIC : Z := 0.
Definition ORDER_COLLECTION : Z := 1.
Definition ORDER_STRING_CONVERSION : Z := 1.
Definition ORDER_MEMBER : Z := 2.
Definition ORDER_FUNCTION_CALL : Z := 2.
Definition ORDER_POSTFIX : Z := 3.
Definition ORDER_EXPONENTIATION : Z := 3.
Definition ORDER_LOGICAL_NOT : Z := 3.
Definition ORDER_UNARY_SIGN : Z := 4.
Definition ORDER_MULTIPLICATIVE : Z := 5.
Definition ORDER_ADDITIVE : Z := 6.
Definition ORDER_BITWISE_SHIFT : Z := 7.
Definition ORDER_RELATIONAL : Z := 8.
Definition ORDER_EQUALITY : Z := 9.
Definition ORDER_BITWISE_AND : Z := 10.
Definition ORDER_BITWISE_XOR : Z := 11.
Definition ORDER_BITWISE_OR : Z := 12.
Definition ORDER_LOGICAL_AND : Z := 13.
Definition ORDER_LOGICAL_OR : Z := 14.
Definition ORDER_CONDITIONAL : Z := 15.
Definition ORDER_ASSIGNMENT : Z := 16.
Definition ORDER_NONE : Z := 99.

(** The names of the table, one constructor per [ORDER_*] property. *)
Inductive category : Type :=
  | Atomic | Collection | StringConversion | Member | FunctionCall
  | Postfix | Exponentiation | LogicalNot | UnarySign | Multiplicative
  | Additive | BitwiseShift | Relational | Equality | BitwiseAnd
  | BitwiseXor | BitwiseOr | LogicalAnd | LogicalOr | Conditional
  | Assignment | NoContext.

Definition order_of (c : category) : Z :=
  match c with
  | Atomic => ORDER_ATOMIC
  | Collection => ORDER_COLLECTION
  | StringConversion => ORDER_STRING_CONVERSION
  | Member => ORDER_MEMBER
  | FunctionCall => ORDER_FUNCTION_CALL
  | Postfix => ORDER_POSTFIX
  | Exponentiation => ORDER_EXPONENTIATION
  | LogicalNot => ORDER_LOGICAL_NOT
  | UnarySign => ORDER_UNARY_SIGN
  | Multiplicative => ORDER_MULTIPLICATIVE
  | Additive => ORDER_ADDITIVE
  | BitwiseShift => ORDER_BITWISE_SHIFT
  | Relational => ORDER_RELATIONAL
  | Equality => ORDER_EQUALITY
  | BitwiseAnd => ORDER_BITWISE_AND
  | BitwiseXor => ORDER_BITWISE_XOR
  | BitwiseOr => ORDER_BITWISE_OR
  | LogicalAnd => ORDER_LOGICAL_AND
  | LogicalOr => ORDER_LOGICAL_OR
  | Conditional => ORDER_CONDITIONAL
  | Assignment => ORDER_ASSIGNMENT
  | NoContext => ORDER_NONE
  end.

(** Modelled from the spec: [needsParens] of section 4.1.  The
    comparison lives in [Blockly.Generator.prototype.valueToCode]
    (core/generator.js), which is not among the sources; the spec gives
    it as: true iff the child's category is numerically weaker (a larger
    number) than what the parent context requires. *)
Definition needsParens (childCategory parentContext : Z) : bool :=
  parentContext <? childCategory.

End Order.

(** ** JavaScript string primitives used by the generator *)

Module Js.

Definition NL : string := String "010" EmptyString.
Definition DQ : string := String "034" EmptyString.

(** [s.split(sep)] for a one-character separator: never empty. *)
Fixpoint split (sep : ascii) (s : string) : list string :=
  match s with
  | EmptyString => [EmptyString]
  | String a s' =>
      if decide (a = sep) then EmptyString :: split sep s'
      else match split sep s' with
           | [] => [String a EmptyString]
           | w :: ws => String a w :: ws
           end
  end.

(** [s.split(sep, limit)]. *)
Definition split_limit (sep : ascii) (limit : nat) (s : string) : list string :=
  take limit (split sep s).

(** [l.join(sep)]. *)
Definition join (sep : string) (l : list string) : string :=
  String.concat sep l.

(** [s.indexOf(c) !== -1] for a one-character needle. *)
Fixpoint has_char (c : ascii) (s : string) : bool :=
  match s with
  | EmptyString => false
  | String a s' => bool_decide (a = c) || has_char c s'
  end.

(** White space of [String.prototype.trim] among the code units below 256. *)
Definition is_white (a : ascii) : bool :=
  match a with
  | "009" | "010" | "011" | "012" | "013" | " " | "160" => true
  | _ => false
  end%char.

Fixpoint trim_start (s : string) : string :=
  match s with
  | EmptyString => EmptyString
  | String a s' => if is_white a then trim_start s' else s
  end.

Definition trim (s : string) : string :=
  String.rev (trim_start (String.rev (trim_start s))).

(** A value is falsy when it is null, undefined or the empty string. *)
Definition truthy (s : string) : bool := negb (bool_decide (s = EmptyString)).

Definition truthy_opt (o : option string) : bool :=
  match o with
  | Some s => truthy s
  | None => false
  end.

(** [s.replace(/\n\n+/g, '\n\n')]: [run] counts the line feeds of the
    current run that were already copied. *)
Fixpoint collapse_blank_go (run : nat) (s : string) : string :=
  match s with
  | EmptyString => EmptyString
  | String a s' =>
      if decide (a = "010"%char) then
        match run with
        | S (S _) => collapse_blank_go run s'
        | _ => String a (collapse_blank_go (S run) s')
        end
      else String a (collapse_blank_go 0 s')
  end.

Definition collapse_blank : string -> string := collapse_blank_go 0.

Fixpoint drop_line_feeds (s : string) : string :=
  match s with
  | EmptyString => EmptyString
  | String a s' => if decide (a = "010"%char) then drop_line_feeds s' else s
  end.

(** [s.replace(/\n*$/, '\n\n\n')]: the first match is the trailing run
    of line feeds (possibly empty). *)
Definition end_with_three_line_feeds (s : string) : string :=
  String.rev (drop_line_feeds (String.rev s)) +:+ NL +:+ NL +:+ NL.

(** [goog.array.contains]. *)
Definition contains (l : list string) (x : string) : bool :=
  bool_decide (x ∈ l).

(** What [obj[key]] gives on an object literal that has no own property
    [key]: the member of [Object.prototype] of that name, a function,
    or the prototype itself for [__proto__]; [None] stands for
    [undefined].  The member is represented by the text that string
    concatenation makes of it, as V8 prints it: the generator tests
    such a value for truthiness, compares it with string literals and
    concatenates it, and does nothing else with it. *)
Definition Object_prototype_functions : list string :=
  [ "constructor"; "toString"; "toLocaleString"; "valueOf";
    "hasOwnProperty"; "isPrototypeOf"; "propertyIsEnumerable";
    "__defineGetter__"; "__defineSetter__"; "__lookupGetter__";
    "__lookupSetter__" ].

Definition inherited (key : string) : option string :=
  if bool_decide (key ∈ Object_prototype_functions) then
    Some ("function "
          +:+ (if bool_decide (key = "constructor") then "Object" else key)
          +:+ "() { [native code] }")
  else if bool_decide (key = "__proto__") then Some "[object Object]"
  else None.

(** Whether a property name is an array index: the decimal form,
    without sign or leading zero, of a number below [2^32 - 1]. *)
Definition digit (a : ascii) : option N :=
  let n := N_of_ascii a in
  if ((48 <=? n) && (n <=? 57))%N then Some (n - 48)%N else None.

Fixpoint digits (s : string) (acc : N) : option N :=
  match s with
  | EmptyString => Some acc
  | String a s' =>
      match digit a with
      | Some d => digits s' (10 * acc + d)%N
      | None => None
      end
  end.

Definition array_index (s : string) : option N :=
  match s with
  | EmptyString => None
  | String a s' =>
      if bool_decide (a = "0"%char) && negb (bool_decide (s' = EmptyString))
      then None
      else
        match digits s 0%N with
        | Some n => if (n <? 4294967295)%N then Some n else None
        | None => None
        end
  end.

(** [goog.array.sort] and [Array.prototype.sort] on strings: the
    default comparison orders strings code unit by code unit. *)
Definition sort (l : list string) : list string := merge_sort String.le l.

End Js.

(** ** Objects used as dictionaries *)

Abbreviation dict V := (list (string * V)).

Section dictionary.
Context {V : Type}.

(** [d[k]], [None] standing for [undefined]. *)
Fixpoint dict_get (k : string) (d : dict V) : option V :=
  match d with
  | [] => None
  | (k', v) :: d' => if decide (k' = k) then Some v else dict_get k d'
  end.

(** [d[k] = v]: a known property keeps its place, a new one goes last. *)
Fixpoint dict_set (k : string) (v : V) (d : dict V) : dict V :=
  match d with
  | [] => [(k, v)]
  | (k', v') :: d' =>
      if decide (k' = k) then (k, v) :: d' else (k', v') :: dict_set k v d'
  end.

(** The property names in insertion order. *)
Definition dict_keys (d : dict V) : list string := d.*1.

(** The properties in the order in which [for..in] visits them: those
    whose name is an array index in ascending order of the index, then
    the others in insertion order. *)
Definition index_of (entry : string * V) : N :=
  default 0%N (Js.array_index entry.1).

Definition index_le (a b : string * V) : Prop :=
  (index_of a <= index_of b)%N.

#[global] Instance index_le_dec (a b : string * V) : Decision (index_le a b) :=
  N.le_dec (index_of a) (index_of b).

Definition for_in (d : dict V) : dict V :=
  merge_sort index_le (filter (fun e => is_Some (Js.array_index e.1)) d)
  ++ filter (fun e => ~ is_Some (Js.array_index e.1)) d.

(** [goog.object.getValues(d)]. *)
Definition dict_values (d : dict V) : list V := d.*2.

End dictionary.

(** ** The name registry *)

(** The words handed to [addReservedWords] (java.js, lines 49-57). *)
Definition RESERVED_WORDS_ : list string :=
  [ "abstract"; "assert"; "boolean"; "break"; "case"; "catch"; "class";
    "const"; "continue"; "default"; "do"; "double"; "else"; "enum";
    "extends"; "final"; "finally"; "float"; "for"; "goto"; "if";
    "implements"; "import"; "instanceof"; "int"; "interface"; "long";
    "native"; "new"; "package"; "private"; "protected"; "public"; "return";
    "short"; "static"; "strictfp"; "super"; "switch"; "synchronized";
    "this"; "throw"; "throws"; "transient"; "try"; "void"; "volatile";
    "while"; "false"; "null"; "true"; "abs"; "divmod"; "input"; "open";
    "staticmethod"; "all"; "enumerate"; "int"; "ord"; "str"; "any"; "eval";
    "isinstance"; "pow"; "sum"; "basestring"; "execfile"; "issubclass";
    "print"; "super"; "bin"; "file"; "iter"; "property"; "tuple"; "bool";
    "filter"; "len"; "range"; "type"; "bytearray"; "float"; "list";
    "raw_input"; "unichr"; "callable"; "format"; "locals"; "reduce";
    "unicode"; "chr"; "frozenset"; "long"; "reload"; "vars"; "classmethod";
    "getattr"; "map"; "repr"; "xrange"; "cmp"; "globals"; "max"; "reversed";
    "zip"; "compile"; "hasattr"; "memoryview"; "round"; "__import__";
    "complex"; "hash"; "min"; "set"; "apply"; "delattr"; "help"; "next";
    "setattr"; "buffer"; "dict"; "hex"; "object"; "slice"; "coerce"; "dir";
    "id"; "oct"; "sorted"; "intern"; "equal" ].

(** Modelled from the spec: the Name Registry of section 4.2
    ([Blockly.Names], core/names.js, is not among the sources).  A
    registry holds the reserved words and the bindings issued so far,
    keyed by logical name and category. *)
Record Names : Type := mkNames {
  reservedWords : list string;
  db_ : list ((string * string) * string)
}.

(** Modelled from the spec: a new registry knows the reserved words and
    has no binding. *)
Definition Names_new (reserved : list string) : Names :=
  mkNames reserved [].

(** Modelled from the spec: [reset()] clears all bindings. *)
Definition Names_reset (n : Names) : Names :=
  mkNames (reservedWords n) [].

(** Modelled from the spec: the name issued before for a logical name
    and category, if any. *)
Fixpoint Names_lookup (key : string * string)
    (db : list ((string * string) * string)) : option string :=
  match db with
  | [] => None
  | (k, e) :: db' => if decide (k = key) then Some e else Names_lookup key db'
  end.

(** Modelled from the spec: the characters of an identifier are the
    letters, the digits and the underscore. *)
Definition legal_char (a : ascii) : bool :=
  let n := nat_of_ascii a in
  (bool_decide (48 <= n)%nat && bool_decide (n <= 57)%nat)
  || (bool_decide (65 <= n)%nat && bool_decide (n <= 90)%nat)
  || (bool_decide (97 <= n)%nat && bool_decide (n <= 122)%nat)
  || bool_decide (a = "_"%char).

(** Modelled from the spec: the candidate is the logical name with every
    illegal character replaced. *)
Fixpoint sanitize (s : string) : string :=
  match s with
  | EmptyString => EmptyString
  | String a s' => String (if legal_char a then a else "_"%char) (sanitize s')
  end.

(** Modelled from the spec: a candidate is taken when it is a reserved
    word or was issued before. *)
Definition in_use (n : Names) (cand : string) : bool :=
  bool_decide (cand ∈ reservedWords n) || bool_decide (cand ∈ (db_ n).*2).

(** Modelled from the spec: a candidate that is reserved or already
    issued gets a disambiguating suffix, here a counter starting at 2. *)
Fixpoint distinct_go (n : Names) (cand : string) (fuel i : nat) : string :=
  match fuel with
  | O => cand +:+ pretty i
  | S fuel' =>
      if in_use n (cand +:+ pretty i) then distinct_go n cand fuel' (S i)
      else cand +:+ pretty i
  end.

(** Modelled from the spec: the emitted identifier for a candidate. *)
Definition distinctName (n : Names) (cand : string) : string :=
  if in_use n cand
  then distinct_go n cand (length (reservedWords n) + length (db_ n)) 2
  else cand.

(** Modelled from the spec: [getName(logicalName, category)] returns the
    name issued before for the same pair, and otherwise issues and
    records a fresh one. *)
Definition Names_getName (logicalName category : string) (n : Names)
    : string * Names :=
  match Names_lookup (logicalName, category) (db_ n) with
  | Some e => (e, n)
  | None =>
      let e := distinctName n (sanitize logicalName) in
      (e, mkNames (reservedWords n) (db_ n ++ [((logicalName, category), e)]))
  end.

(** Modelled from the spec: the category of variables,
    [Blockly.Variables.NAME_TYPE] (core/variables.js is not among the
    sources). *)
Definition Variables_NAME_TYPE : string := "VARIABLE".

(** ** The generator object *)

(** An entry of [definitions_]: the text of a helper, or a function that
    yields the text when [finish] calls it. *)
Inductive def : Type :=
  | DefText (text : string)
  | DefFunction (produces : string).

(** The properties of [Blockly.Java] that the functions below read or
    write.  [VersionNumber_] and [year] hold the text that string
    concatenation makes of the numbers.  [definitions_] and
    [functionNames_] are [None] once [finish] has deleted them, and
    [variableDB_] is [None] until the first [init].  [imports_] exists
    from the first [init] on; the model takes it as empty before.
    [VariableTypeEquivalence] is the table of that name in [Blockly],
    which [init] writes. *)
Record Java : Type := mkJava {
  POSTFIX : string;
  EXTRAINDENT : string;
  variableTypes_ : gmap string string;
  blocklyTypes_ : dict string;
  VariableTypeEquivalence : gmap string (list string);
  AppName_ : string;
  Description_ : string;
  VersionName_ : string;
  VersionNumber_ : string;
  HomeWebsite_ : string;
  minSdk : string;
  icon : string;
  name : string;
  year : string;
  Package_ : string;
  Baseclass_ : string;
  needImports_ : list string;
  Interfaces_ : list string;
  ExtraImports_ : option (list string);
  classes_ : dict string;
  globals_ : dict (option string);
  definitions_ : option (dict def);
  functionNames_ : option (dict string);
  imports_ : dict string;
  variableDB_ : option Names
}.

Definition set_POSTFIX (v : string) (st : Java) : Java :=
  mkJava v (EXTRAINDENT st) (variableTypes_ st) (blocklyTypes_ st)
  (VariableTypeEquivalence st) (AppName_ st) (Description_ st) (VersionName_
  st) (VersionNumber_ st) (HomeWebsite_ st) (minSdk st) (icon st) (name st)
  (year st) (Package_ st) (Baseclass_ st) (needImports_ st) (Interfaces_ st)
  (ExtraImports_ st) (classes_ st) (globals_ st) (definitions_ st)
  (functionNames_ st) (imports_ st) (variableDB_ st).
Definition set_EXTRAINDENT (v : string) (st : Java) : Java :=
  mkJava (POSTFIX st) v (variableTypes_ st) (blocklyTypes_ st)
  (VariableTypeEquivalence st) (AppName_ st) (Description_ st) (VersionName_
  st) (VersionNumber_ st) (HomeWebsite_ st) (minSdk st) (icon st) (name st)
  (year st) (Package_ st) (Baseclass_ st) (needImports_ st) (Interfaces_ st)
  (ExtraImports_ st) (classes_ st) (globals_ st) (definitions_ st)
  (functionNames_ st) (imports_ st) (variableDB_ st).
Definition set_variableTypes_ (v : gmap string string) (st : Java) : Java :=
  mkJava (POSTFIX st) (EXTRAINDENT st) v (blocklyTypes_ st)
  (VariableTypeEquivalence st) (AppName_ st) (Description_ st) (VersionName_
  st) (VersionNumber_ st) (HomeWebsite_ st) (minSdk st) (icon st) (name st)
  (year st) (Package_ st) (Baseclass_ st) (needImports_ st) (Interfaces_ st)
  (ExtraImports_ st) (classes_ st) (globals_ st) (definitions_ st)
  (functionNames_ st) (imports_ st) (variableDB_ st).
Definition set_blocklyTypes_ (v : dict string) (st : Java) : Java :=
  mkJava (POSTFIX st) (EXTRAINDENT st) (variableTypes_ st) v
  (VariableTypeEquivalence st) (AppName_ st) (Description_ st) (VersionName_
  st) (VersionNumber_ st) (HomeWebsite_ st) (minSdk st) (icon st) (name st)
  (year st) (Package_ st) (Baseclass_ st) (needImports_ st) (Interfaces_ st)
  (ExtraImports_ st) (classes_ st) (globals_ st) (definitions_ st)
  (functionNames_ st) (imports_ st) (variableDB_ st).
Definition set_VariableTypeEquivalence (v : gmap string (list string)) (st : Java) : Java :=
  mkJava (POSTFIX st) (EXTRAINDENT st) (variableTypes_ st) (blocklyTypes_
  st) v (AppName_ st) (Description_ st) (VersionName_ st) (VersionNumber_
  st) (HomeWebsite_ st) (minSdk st) (icon st) (name st) (year st) (Package_
  st) (Baseclass_ st) (needImports_ st) (Interfaces_ st) (ExtraImports_ st)
  (classes_ st) (globals_ st) (definitions_ st) (functionNames_ st)
  (imports_ st) (variableDB_ st).
Definition set_AppName_ (v : string) (st : Java) : Java :=
  mkJava (POSTFIX st) (EXTRAINDENT st) (variableTypes_ st) (blocklyTypes_
  st) (VariableTypeEquivalence st) v (Description_ st) (VersionName_ st)
  (VersionNumber_ st) (HomeWebsite_ st) (minSdk st) (icon st) (name st)
  (year st) (Package_ st) (Baseclass_ st) (needImports_ st) (Interfaces_ st)
  (ExtraImports_ st) (classes_ st) (globals_ st) (definitions_ st)
  (functionNames_ st) (imports_ st) (variableDB_ st).
Definition set_Package_ (v : string) (st : Java) : Java :=
  mkJava (POSTFIX st) (EXTRAINDENT st) (variableTypes_ st) (blocklyTypes_
  st) (VariableTypeEquivalence st) (AppName_ st) (Description_ st)
  (VersionName_ st) (VersionNumber_ st) (HomeWebsite_ st) (minSdk st) (icon
  st) (name st) (year st) v (Baseclass_ st) (needImports_ st) (Interfaces_
  st) (ExtraImports_ st) (classes_ st) (globals_ st) (definitions_ st)
  (functionNames_ st) (imports_ st) (variableDB_ st).
Definition set_Baseclass_ (v : string) (st : Java) : Java :=
  mkJava (POSTFIX st) (EXTRAINDENT st) (variableTypes_ st) (blocklyTypes_
  st) (VariableTypeEquivalence st) (AppName_ st) (Description_ st)
  (VersionName_ st) (VersionNumber_ st) (HomeWebsite_ st) (minSdk st) (icon
  st) (name st) (year st) (Package_ st) v (needImports_ st) (Interfaces_ st)
  (ExtraImports_ st) (classes_ st) (globals_ st) (definitions_ st)
  (functionNames_ st) (imports_ st) (variableDB_ st).
Definition set_Interfaces_ (v : list string) (st : Java) : Java :=
  mkJava (POSTFIX st) (EXTRAINDENT st) (variableTypes_ st) (blocklyTypes_
  st) (VariableTypeEquivalence st) (AppName_ st) (Description_ st)
  (VersionName_ st) (VersionNumber_ st) (HomeWebsite_ st) (minSdk st) (icon
  st) (name st) (year st) (Package_ st) (Baseclass_ st) (needImports_ st) v
  (ExtraImports_ st) (classes_ st) (globals_ st) (definitions_ st)
  (functionNames_ st) (imports_ st) (variableDB_ st).
Definition set_ExtraImports_ (v : option (list string)) (st : Java) : Java :=
  mkJava (POSTFIX st) (EXTRAINDENT st) (variableTypes_ st) (blocklyTypes_
  st) (VariableTypeEquivalence st) (AppName_ st) (Description_ st)
  (VersionName_ st) (VersionNumber_ st) (HomeWebsite_ st) (minSdk st) (icon
  st) (name st) (year st) (Package_ st) (Baseclass_ st) (needImports_ st)
  (Interfaces_ st) v (classes_ st) (globals_ st) (definitions_ st)
  (functionNames_ st) (imports_ st) (variableDB_ st).
Definition set_classes_ (v : dict string) (st : Java) : Java :=
  mkJava (POSTFIX st) (EXTRAINDENT st) (variableTypes_ st) (blocklyTypes_
  st) (VariableTypeEquivalence st) (AppName_ st) (Description_ st)
  (VersionName_ st) (VersionNumber_ st) (HomeWebsite_ st) (minSdk st) (icon
  st) (name st) (year st) (Package_ st) (Baseclass_ st) (needImports_ st)
  (Interfaces_ st) (ExtraImports_ st) v (globals_ st) (definitions_ st)
  (functionNames_ st) (imports_ st) (variableDB_ st).
Definition set_globals_ (v : dict (option string)) (st : Java) : Java :=
  mkJava (POSTFIX st) (EXTRAINDENT st) (variableTypes_ st) (blocklyTypes_
  st) (VariableTypeEquivalence st) (AppName_ st) (Description_ st)
  (VersionName_ st) (VersionNumber_ st) (HomeWebsite_ st) (minSdk st) (icon
  st) (name st) (year st) (Package_ st) (Baseclass_ st) (needImports_ st)
  (Interfaces_ st) (ExtraImports_ st) (classes_ st) v (definitions_ st)
  (functionNames_ st) (imports_ st) (variableDB_ st).
Definition set_definitions_ (v : option (dict def)) (st : Java) : Java :=
  mkJava (POSTFIX st) (EXTRAINDENT st) (variableTypes_ st) (blocklyTypes_
  st) (VariableTypeEquivalence st) (AppName_ st) (Description_ st)
  (VersionName_ st) (VersionNumber_ st) (HomeWebsite_ st) (minSdk st) (icon
  st) (name st) (year st) (Package_ st) (Baseclass_ st) (needImports_ st)
  (Interfaces_ st) (ExtraImports_ st) (classes_ st) (globals_ st) v
  (functionNames_ st) (imports_ st) (variableDB_ st).
Definition set_functionNames_ (v : option (dict string)) (st : Java) : Java :=
  mkJava (POSTFIX st) (EXTRAINDENT st) (variableTypes_ st) (blocklyTypes_
  st) (VariableTypeEquivalence st) (AppName_ st) (Description_ st)
  (VersionName_ st) (VersionNumber_ st) (HomeWebsite_ st) (minSdk st) (icon
  st) (name st) (year st) (Package_ st) (Baseclass_ st) (needImports_ st)
  (Interfaces_ st) (ExtraImports_ st) (classes_ st) (globals_ st)
  (definitions_ st) v (imports_ st) (variableDB_ st).
Definition set_imports_ (v : dict string) (st : Java) : Java :=
  mkJava (POSTFIX st) (EXTRAINDENT st) (variableTypes_ st) (blocklyTypes_
  st) (VariableTypeEquivalence st) (AppName_ st) (Description_ st)
  (VersionName_ st) (VersionNumber_ st) (HomeWebsite_ st) (minSdk st) (icon
  st) (name st) (year st) (Package_ st) (Baseclass_ st) (needImports_ st)
  (Interfaces_ st) (ExtraImports_ st) (classes_ st) (globals_ st)
  (definitions_ st) (functionNames_ st) v (variableDB_ st).
Definition set_variableDB_ (v : option Names) (st : Java) : Java :=
  mkJava (POSTFIX st) (EXTRAINDENT st) (variableTypes_ st) (blocklyTypes_
  st) (VariableTypeEquivalence st) (AppName_ st) (Description_ st)
  (VersionName_ st) (VersionNumber_ st) (HomeWebsite_ st) (minSdk st) (icon
  st) (name st) (year st) (Package_ st) (Baseclass_ st) (needImports_ st)
  (Interfaces_ st) (ExtraImports_ st) (classes_ st) (globals_ st)
  (definitions_ st) (functionNames_ st) (imports_ st) v.

(** ** Effects: generator state and thrown values *)

Inductive JsError : Type :=
  | TypeError (message : string)
  | Thrown (value : string).

Inductive outcome (A : Type) : Type :=
  | Ret (a : A) (st : Java)
  | Raise (e : JsError) (st : Java).

Arguments Ret {A} a st.
Arguments Raise {A} e st.

Definition M (A : Type) : Type := Java -> outcome A.

Definition ret {A : Type} (a : A) : M A := fun st => Ret a st.

Definition raise {A : Type} (e : JsError) : M A := fun st => Raise e st.

Definition bind {A B : Type} (m : M A) (f : A -> M B) : M B :=
  fun st =>
    match m st with
    | Ret a st' => f a st'
    | Raise e st' => Raise e st'
    end.

Definition get : M Java := fun st => Ret st st.

(** The state a computation ends in. *)
Definition final_state {A : Type} (o : outcome A) : Java :=
  match o with
  | Ret _ st => st
  | Raise _ st => st
  end.

(** The value a computation returns, if it returns. *)
Definition result {A : Type} (o : outcome A) : option A :=
  match o with
  | Ret a _ => Some a
  | Raise _ _ => None
  end.

Definition modify (f : Java -> Java) : M unit := fun st => Ret tt (f st).

Notation "x <- m ;; k" := (bind m (fun x => k))
  (at level 100, m at next level, right associativity).

(** ** Blocks and roots, as far as the generator reads them *)

Inductive inputType : Type := INPUT_VALUE | NEXT_STATEMENT | DUMMY_INPUT.

#[global] Instance inputType_eq_dec : EqDecision inputType.
Proof. solve_decision. Defined.

(** [outputConnection] is [None] for a block without output, and
    otherwise tells whether its [targetConnection] is set.  An input
    carries its type and [connection.targetBlock()]; [nextConnection] is
    [None] when absent and otherwise holds its [targetBlock()]. *)
#[local] Unset Elimination Schemes.
Inductive Block : Type := mkBlock {
  block_type : string;
  getCommentText : option string;
  outputConnection : option bool;
  inputList : list (inputType * option Block);
  nextConnection : option (option Block);
  onchange : option (M unit)
}.
#[local] Set Elimination Schemes.

Record WsOptions : Type := mkWsOptions {
  appTitle : option string
}.

(** The root handed to the generator: each property may be missing;
    [rootString] is the root converted to a string. *)
Record Root : Type := mkRoot {
  options : option WsOptions;
  getDescendants : option (list Block);
  getAllBlocks : option (list Block);
  rootString : string
}.

(** The code of the repository and of the platform that the generator
    calls and that is not among the sources. *)
Class Collaborators : Type := {
  Parms : Type;
  (** [Blockly.Blocks[type].GBPClass] when both are truthy. *)
  Blocks_GBPClass : string -> option string;
  (** [Blockly.Variables.allVariables] and [allVariablesTypes]. *)
  Variables_allVariables : Root -> list string;
  Variables_allVariablesTypes : Root -> dict string;
  (** Whether [Blockly.Variables.getLocalContext] is not null. *)
  Variables_getLocalContext : Block -> string -> bool;
  (** [Blockly.Generator.prototype.prefixLines], [allNestedComments]
      and [blockToCode]. *)
  prefixLines : string -> string -> string;
  allNestedComments : Block -> string;
  blockToCode : option Block -> Parms -> M string;
  (** The walk of [Blockly.Generator.prototype.workspaceToCode] over the
      top blocks, between [init] and [finish]. *)
  emitTopBlocks : Root -> Parms -> M string;
  (** [String.prototype.replace] with a string pattern. *)
  String_replace : string -> string -> string -> string
}.

(** ** The functions of java.js *)

Section generator.
Context `{Collaborators}.

(** [setAppName] (lines 209-214). *)
Definition setAppName (title : option string) (st : Java) : Java :=
  set_AppName_ (if Js.truthy_opt title then default "MyApp" title else "MyApp") st.

(** [setPackage] (lines 269-274). *)
Definition setPackage (javaPackage : option string) (st : Java) : Java :=
  set_Package_
    (if Js.truthy_opt javaPackage then default "demo" javaPackage else "demo") st.

(** [variableDB_.getName]; reading a property of an undefined
    [variableDB_] is a [TypeError]. *)
Definition variableDB_getName (logicalName category : string) : M string :=
  fun st =>
    match variableDB_ st with
    | None => Raise (TypeError "variableDB_ is undefined") st
    | Some db =>
        let (e, db') := Names_getName logicalName category db in
        Ret e (set_variableDB_ (Some db') st)
    end.

(** [getAppName] (lines 240-242). *)
Definition getAppName : M string :=
  st <- get ;; variableDB_getName (AppName_ st) "CLASS".

(** [forceUpdate] (lines 277-294). *)
Fixpoint call_onchange (blocks : list Block) : M unit :=
  match blocks with
  | [] => ret tt
  | b :: blocks' =>
      _ <- match onchange b with
           | Some f => f
           | None => ret tt
           end ;;
      call_onchange blocks'
  end.

Definition forceUpdate (root : Root) : M unit :=
  match getDescendants root with
  | Some blocks => call_onchange blocks
  | None =>
      match getAllBlocks root with
      | Some blocks => call_onchange blocks
      | None => raise (Thrown ("Not Block or Workspace: " +:+ rootString root))
      end
  end.

(** [setBaseclass] and [getBaseclass] (lines 306-320). *)
Definition setBaseclass (baseclass : string) (st : Java) : Java :=
  set_Baseclass_ baseclass st.

Definition getBaseclass : M string :=
  st <- get ;;
  let baseClass := Baseclass_ st in
  if decide (baseClass = "") then ret baseClass
  else variableDB_getName baseClass "CLASS".

(** [addInterface] and [getInterfaces] (lines 325-340). *)
Definition addInterface (iface : string) (st : Java) : Java :=
  if Js.contains (Interfaces_ st) iface then st
  else set_Interfaces_ (Interfaces_ st ++ [iface]) st.

Definition getInterfaces (st : Java) : option (list string) :=
  if decide (length (Interfaces_ st) = 0%nat) then None
  else Some (Interfaces_ st).

(** [setGlobalVar] (lines 347-353). *)
Definition setGlobalVar (block : Block) (varName : string)
    (val : option string) (st : Java) : Java :=
  if negb (Variables_getLocalContext block varName)
     && bool_decide (mjoin (dict_get varName (globals_ st)) = None)
  then set_globals_ (dict_set varName val (globals_ st)) st
  else st.

(** [GetVariableType] (lines 359-365). *)
Definition GetVariableType (varName : string) (st : Java) : string :=
  match variableTypes_ st !! varName with
  | Some type => if Js.truthy type then type else "Object"
  | None => default "Object" (Js.inherited varName)
  end.

(** [GetBlocklyType] (lines 372-374). *)
Definition GetBlocklyType (variable : string) (st : Java) : option string :=
  dict_get variable (blocklyTypes_ st).

(** [addImport] (lines 380-383). *)
Definition importStatement (importlib : string) : string :=
  "import " +:+ importlib +:+ ";".

Definition addImport (importlib : string) (st : Java) : Java :=
  let importStr := importStatement importlib in
  set_imports_ (dict_set importStr importStr (imports_ st)) st.

Definition addImports (libs : list string) (st : Java) : Java :=
  fold_left (fun s importlib => addImport importlib s) libs st.

(** [getImports] (lines 390-401): [importLines] is the sorted array,
    [getImports] the text joined from it, together with the state in
    which the extra imports are registered. *)
Definition withExtraImports (st : Java) : Java :=
  match ExtraImports_ st with
  | Some extra => addImports extra st
  | None => st
  end.

Definition importLines (st : Java) : list string :=
  Js.sort (dict_values (imports_ (withExtraImports st))).

Definition getImports : M string :=
  fun st => Ret (Js.join Js.NL (importLines st)) (withExtraImports st).

(** [setExtraImports] (lines 407-409). *)
Definition setExtraImports (extraImports : option (list string)) (st : Java)
    : Java :=
  set_ExtraImports_ extraImports st.

(** [getClasses] and [setExtraClass] (lines 419-432). *)
Definition getClasses (st : Java) : string :=
  let code := fold_left (fun c kv => c +:+ kv.2) (classes_ st) "" in
  if Js.truthy code then code +:+ Js.NL +:+ Js.NL else code.


(** [typeMapping] and [subtypeMapping] (lines 503-521). *)
Definition typeMapping : dict string :=
  [ ("Object", "Object"); ("Array", "YailList"); ("Map", "HashMap");
    ("Boolean", "boolean"); ("String", "String"); ("Colour", "String");
    ("Number", "double") ].

Definition subtypeMapping : dict string :=
  [ ("Object", "Object"); ("Array", "YailList"); ("Map", "HashMap");
    ("Boolean", "boolean"); ("String", "String"); ("Colour", "String");
    ("Number", "Double") ].

(** [mapType] (lines 528-564).  Every function returns the type together
    with the lines it writes to the console.  [mapToken] is the chain of
    tests on one token of the type. *)
Definition mapToken (equivalence : gmap string (list string))
    (mapping : dict string) (key : string) : string * list string :=
  match dict_get key mapping with
  | Some type => (type, [])
  | None =>
      match Js.inherited key with
      | Some member => (member, [])
      | None =>
          match Blocks_GBPClass key with
          | Some type => (type, [])
          | None =>
              if bool_decide (is_Some (equivalence !! key)) then (key, [])
              else ("Object",
                    ["Unknown type for " +:+ key +:+ " using Var for " +:+ key])
          end
      end
  end.

Fixpoint mapType_ (equivalence : gmap string (list string))
    (mapping : dict string) (typeArray : list string) : string * list string :=
  match typeArray with
  | [] =>
      let (type, log) := mapToken equivalence mapping "Object" in
      (type, "Empty type. Using Object" :: log)
  | key :: rest =>
      let (type, log) := mapToken equivalence mapping key in
      match rest with
      | [] => (type, log)
      | _ :: _ =>
          let (subType, log') := mapType_ equivalence subtypeMapping rest in
          (type +:+ "<" +:+ subType +:+ ">", log ++ log')
      end
  end.

Definition mapType_console (type : option string) (st : Java)
    : string * list string :=
  let typeArray :=
    if Js.truthy_opt type then Js.split ":" (default "" type) else [] in
  mapType_ (VariableTypeEquivalence st) typeMapping typeArray.

Definition mapType (type : option string) (st : Java) : string :=
  (mapType_console type st).1.

(** [init] (lines 597-633). *)
Definition init (workspace : Root) (st : Java) : Java :=
  let st := set_definitions_ (Some []) st in
  let st := set_functionNames_ (Some []) st in
  let st := set_imports_ [] st in
  let st := set_classes_ [] st in
  let st := set_globals_ [] st in
  let st := addImports (needImports_ st) st in
  let st :=
    set_variableDB_
      (Some match variableDB_ st with
            | None => Names_new RESERVED_WORDS_
            | Some db => Names_reset db
            end) st in
  let st :=
    set_VariableTypeEquivalence
      (<["Colour" := ["String"]]> (VariableTypeEquivalence st)) st in
  let variables := Variables_allVariables workspace in
  let st := set_blocklyTypes_ (Variables_allVariablesTypes workspace) st in
  let variables := variables ++ dict_keys (blocklyTypes_ st) in
  fold_left
    (fun s key =>
       set_variableTypes_
         (<[key := mapType (dict_get key (blocklyTypes_ s)) s]>
            (variableTypes_ s)) s)
    variables st.

(** [finish] (lines 640-730), first loop: the slot of a definition and
    the two arrays of [funcs]. *)
Definition slot_of (d : def) : nat :=
  match d with
  | DefFunction _ => 1
  | DefText text =>
      if Js.contains (Js.split_limit " " 3 text) "static" then 0 else 1
  end.

Definition push_func (funcs : list string * list string)
    (entry : string * def) : list string * list string :=
  if decide (entry.1 = "variables") then funcs
  else
    match slot_of entry.2 with
    | O => (funcs.1 ++ [entry.1], funcs.2)
    | S _ => (funcs.1, funcs.2 ++ [entry.1])
    end.

Definition funcs_of (definitions : dict def) : list string * list string :=
  fold_left push_func definitions ([], []).

(** Second loop: the field of one global variable. *)
Definition initializer_of (value : option string) (type : string) : string :=
  if Js.truthy_opt value then " = " +:+ default "" value
  else if decide (type = "Var") then " = new Var()"
  else if decide (type = "Boolean") then " = false"
  else if decide (type = "String") then " = " +:+ Js.DQ +:+ Js.DQ
  else "".

Fixpoint fieldDeclarations (globals : dict (option string)) : M string :=
  match globals with
  | [] => ret ""
  | (def, value) :: globals' =>
      st <- get ;;
      let type := GetVariableType def st in
      let initializer := initializer_of value type in
      varname <- variableDB_getName def Variables_NAME_TYPE ;;
      rest <- fieldDeclarations globals' ;;
      ret ("protected " +:+ type +:+ " " +:+ varname +:+ initializer
           +:+ ";" +:+ Js.NL +:+ rest)
  end.

(** Third loop: the documentation header derived from the text of a
    definition (lines 693-720); an [undefined] return type is [None]. *)
Definition param_lines (res : string) (start : string * string)
    : string * string :=
  fold_left
    (fun acc arg =>
       (acc.1 +:+ acc.2 +:+ " * @param " +:+ List.last (Js.split " " arg) ""
        +:+ Js.NL, ""))
    (Js.split "," res) start.

Definition docHeader (text : string) : string :=
  match Js.split_limit "(" 2 text with
  | before :: params :: _ =>
      if Js.has_char ";" before then ""
      else
        let start := ("  /**" +:+ Js.NL +:+ " * Description goes here" +:+ Js.NL,
                      " *" +:+ Js.NL) in
        let res2 := Js.split " " before in
        let rettype := res2 !! (length res2 - 2)%nat in
        let rettype := if decide (2 <= length res2)%nat then rettype else None in
        let res := Js.trim (List.hd "" (Js.split_limit ")" 1 params)) in
        let acc := if decide (res = "") then start else param_lines res start in
        let acc :=
          if decide (rettype = Some "void" \/ rettype = Some "public") then acc
          else (acc.1 +:+ acc.2 +:+ " * @return "
                +:+ default "undefined" rettype +:+ Js.NL, "") in
        acc.1 +:+ " */" +:+ Js.NL
  | _ => ""
  end.

Definition materialize (d : def) : string :=
  match d with
  | DefText text => text
  | DefFunction produces => produces
  end.

(** The names in the order in which the third loop visits them. *)
Definition emissionOrder (definitions : dict def) : list string :=
  let funcs := funcs_of definitions in
  Js.sort funcs.1 ++ Js.sort funcs.2.

(** What the third loop appends for one name; the names it visits are
    properties of [definitions_]. *)
Definition emitDefinition (definitions : dict def) (fname : string) : string :=
  match dict_get fname definitions with
  | Some d =>
      let text := materialize d in
      docHeader text +:+ text +:+ Js.NL +:+ Js.NL
  | None => ""
  end.

Definition functionDefinitions (definitions : dict def) : string :=
  String.concat "" (emitDefinition definitions <$> emissionOrder definitions).

Definition variableDB_reset : M unit :=
  fun st =>
    match variableDB_ st with
    | None => Raise (TypeError "variableDB_ is undefined") st
    | Some db => Ret tt (set_variableDB_ (Some (Names_reset db)) st)
    end.

Definition finish (code : string) : M string :=
  st <- get ;;
  let definitions := default [] (definitions_ st) in
  fields <- fieldDeclarations (for_in (globals_ st)) ;;
  let allDefs := fields +:+ functionDefinitions definitions in
  _ <- modify (set_definitions_ None) ;;
  _ <- modify (set_functionNames_ None) ;;
  _ <- variableDB_reset ;;
  ret (Js.end_with_three_line_feeds (Js.collapse_blank allDefs) +:+ code).

(** [scrubNakedValue] (lines 738-740). *)
Definition scrubNakedValue (line : string) : string :=
  line +:+ ";" +:+ Js.NL.

(** [scrub_] (lines 834-867): the comments of a block that is not
    inline, then the next block with the staged modifiers. *)
Definition ownComment (block : Block) : string :=
  match getCommentText block with
  | Some comment =>
      if Js.truthy comment then prefixLines comment "// " +:+ Js.NL else ""
  | None => ""
  end.

Definition addInputComment (commentCode : string)
    (input : inputType * option Block) : string :=
  match input with
  | (INPUT_VALUE, Some childBlock) =>
      let comment := allNestedComments childBlock in
      if Js.truthy comment then commentCode +:+ prefixLines comment "// "
      else commentCode
  | _ => commentCode
  end.

Definition isInline (block : Block) : bool :=
  match outputConnection block with
  | Some targetConnection => targetConnection
  | None => false
  end.

Definition commentCode_of (block : Block) : string :=
  if isInline block then ""
  else fold_left addInputComment (inputList block) (ownComment block).

Definition scrub_ (block : Block) (code : string) (parms : Parms) : M string :=
  let commentCode := commentCode_of block in
  st <- get ;;
  let postFix := POSTFIX st in
  _ <- modify (set_POSTFIX "") ;;
  st <- get ;;
  let extraIndent := EXTRAINDENT st in
  _ <- modify (set_EXTRAINDENT "") ;;
  let nextBlock := mjoin (nextConnection block) in
  nextCode <- blockToCode nextBlock parms ;;
  let nextCode :=
    if decide (extraIndent = "") then nextCode
    else prefixLines nextCode extraIndent in
  ret (commentCode +:+ code +:+ nextCode +:+ postFix).

(** Modelled from the spec: [workspaceToCode_], the saved
    [Blockly.Generator.prototype.workspaceToCode] (core/generator.js is
    not among the sources).  By section 4.6 it resets the registries,
    emits every top-level chain and hands the body to [finish]. *)
Definition workspaceToCode_ (workspace : Root) (parms : Parms) : M string :=
  _ <- modify (init workspace) ;;
  code <- emitTopBlocks workspace parms ;;
  finish code.

(** [workspaceToCode] (lines 445-492). *)
Definition fileHeader : string :=
  String.concat Js.NL [
    "/*";
    " * Copyright (c) <<Year>>, <<Your Name>>";
    " * All rights reserved.";
    " *";
    " * Redistribution and use in source and binary forms, with or without";
    " * modification, are permitted provided that the following conditions are met:";
    " *";
    " * * Redistributions of source code must retain the above copyright notice, this";
    " *   list of conditions and the following disclaimer.";
    " * * Redistributions in binary form must reproduce the above copyright notice,";
    " *   this list of conditions and the following disclaimer in the documentation";
    " *   and/or other materials provided with the distribution.";
    " *";
    " * THIS SOFTWARE IS PROVIDED BY THE COPYRIGHT HOLDERS AND CONTRIBUTORS " +:+ Js.DQ +:+ "AS IS" +:+ Js.DQ;
    " * AND ANY EXPRESS OR IMPLIED WARRANTIES, INCLUDING, BUT NOT LIMITED TO, THE";
    " * IMPLIED WARRANTIES OF MERCHANTABILITY AND FITNESS FOR A PARTICULAR PURPOSE";
    " * ARE DISCLAIMED. IN NO EVENT SHALL THE COPYRIGHT HOLDER OR CONTRIBUTORS BE";
    " * LIABLE FOR ANY DIRECT, INDIRECT, INCIDENTAL, SPECIAL, EXEMPLARY, OR";
    " * CONSEQUENTIAL DAMAGES (INCLUDING, BUT NOT LIMITED TO, PROCUREMENT OF";
    " * SUBSTITUTE GOODS OR SERVICES; LOSS OF USE, DATA, OR PROFITS; OR BUSINESS";
    " * INTERRUPTION) HOWEVER CAUSED AND ON ANY THEORY OF LIABILITY, WHETHER IN";
    " * CONTRACT, STRICT LIABILITY, OR TORT (INCLUDING NEGLIGENCE OR OTHERWISE)";
    " * ARISING IN ANY WAY OUT OF THE USE OF THIS SOFTWARE, EVEN IF ADVISED OF THE";
    " * POSSIBILITY OF SUCH DAMAGE.";
    " */";
    EmptyString ].

Definition annotations (st : Java) : string :=
  "@SimpleObject(external=true)" +:+ Js.NL
  +:+ "@DesignerComponent(version = " +:+ VersionNumber_ st
  +:+ ", nonVisible = true, category = ComponentCategory.EXTENSION, iconName = "
  +:+ Js.DQ +:+ icon st +:+ Js.DQ +:+ ", description = "
  +:+ Js.DQ +:+ Description_ st +:+ Js.DQ +:+ ", versionName = "
  +:+ Js.DQ +:+ VersionName_ st +:+ Js.DQ
  +:+ (if Js.truthy (HomeWebsite_ st)
       then ", helpUrl = " +:+ Js.DQ +:+ HomeWebsite_ st +:+ Js.DQ else "")
  +:+ (if Js.truthy (minSdk st)
       then ", androidMinSdk = " +:+ minSdk st else "")
  +:+ ")" +:+ Js.NL.

Definition implementsClause (interfaces : option (list string)) : string :=
  match interfaces with
  | None => ""
  | Some l =>
      (fold_left (fun acc iface => (acc.1 +:+ acc.2 +:+ iface, ", "))
                 l ("", " implements ")).1
  end.

Definition classDeclaration (appName baseClass : string)
    (interfaces : option (list string)) : string :=
  "public class " +:+ appName
  +:+ (if decide (baseClass = "") then "" else " extends " +:+ baseClass)
  +:+ implementsClause interfaces.

Definition fixedImports : list string :=
  [ "com.google.appinventor.components.runtime.AndroidNonvisibleComponent";
    "com.google.appinventor.components.runtime.ComponentContainer";
    "com.google.appinventor.components.annotations.SimpleObject";
    "com.google.appinventor.components.annotations.DesignerComponent";
    "com.google.appinventor.components.common.ComponentCategory" ].

Definition workspaceToCode (workspace : Root) (parms : Parms) : M string :=
  title <- match options workspace with
           | Some o => ret (appTitle o)
           | None =>
               raise (TypeError "Cannot read property appTitle of undefined")
           end ;;
  _ <- modify (setAppName title) ;;
  _ <- forceUpdate workspace ;;
  code <- workspaceToCode_ workspace parms ;;
  _ <- modify (addImports fixedImports) ;;
  _ <- modify (setBaseclass "AndroidNonvisibleComponent") ;;
  st <- get ;;
  let header :=
    String_replace (String_replace fileHeader "<<Your Name>>" (name st))
                   "<<Year>>" (year st) in
  imports <- getImports ;;
  st <- get ;;
  let finalcode :=
    header +:+ "package " +:+ Package_ st +:+ ";" +:+ Js.NL +:+ Js.NL
    +:+ imports +:+ Js.NL +:+ annotations st in
  appName <- getAppName ;;
  baseClass <- getBaseclass ;;
  st <- get ;;
  let finalcode :=
    finalcode +:+ classDeclaration appName baseClass (getInterfaces st) in
  constructorName <- getAppName ;;
  st <- get ;;
  ret (finalcode +:+ " {" +:+ Js.NL +:+ Js.NL
       +:+ "public " +:+ constructorName +:+ "(ComponentContainer container) {"
       +:+ Js.NL +:+ "  super(container.$form());" +:+ Js.NL +:+ "}" +:+ Js.NL
       +:+ code +:+ Js.NL +:+ "}" +:+ Js.NL +:+ Js.NL +:+ getClasses st).

End generator.

(** ** Vocabulary of the properties *)

(** The partition of the helpers as section 4.4 of the specification
    words it, to be compared with [slot_of]: a helper is static-like
    when its declaration text contains the marker token. *)
Definition staticLike_spec (d : def) : bool :=
  Js.contains (Js.split " " (materialize d)) "static".

Definition emissionOrder_spec (definitions : dict def) : list string :=
  Js.sort (dict_keys (filter (fun e => staticLike_spec e.2 = true) definitions))
  ++ Js.sort
       (dict_keys (filter (fun e => staticLike_spec e.2 = false) definitions)).

(** The entries of a dictionary under the given names, in the order
    of the names. *)
Definition entries_of (definitions : dict def) (names : list string)
    : dict def :=
  omap (fun fname => pair fname <$> dict_get fname definitions) names.

(** What [finish] appends for one definition: its documentation
    header, its text and a blank line. *)
Definition emitted (entry : string * def) : string :=
  docHeader (materialize entry.2) +:+ materialize entry.2
  +:+ Js.NL +:+ Js.NL.

(** The two groups as [finish] forms them. *)
Definition group (slot : nat) (definitions : dict def) : list string :=
  dict_keys
    (filter (fun e => e.1 <> "variables" /\ slot_of e.2 = slot) definitions).

(** The blocks plugged into the value inputs of a block, in input order. *)
Definition valueChildren (block : Block) : list Block :=
  omap (fun input =>
          match input with
          | (INPUT_VALUE, Some childBlock) => Some childBlock
          | _ => None
          end) (inputList block).

(** What [scrub_] appends for one plugged value block. *)
Definition nestedComment `{Collaborators} (childBlock : Block) : string :=
  let comment := allNestedComments childBlock in
  if Js.truthy comment then prefixLines comment "// " else "".

(** The next block as [scrub_] reads it, and the text it adds for it. *)
Definition nextBlock_of (block : Block) : option Block :=
  mjoin (nextConnection block).

Definition indented `{Collaborators} (extraIndent nextCode : string) : string :=
  if decide (extraIndent = "") then nextCode
  else prefixLines nextCode extraIndent.

(** A block without its statement and dummy inputs. *)
Definition valueInputsOnly (block : Block) : Block :=
  mkBlock (block_type block) (getCommentText block) (outputConnection block)
    (filter (fun input => input.1 = INPUT_VALUE) (inputList block))
    (nextConnection block) (onchange block).

(** [needle] occurs in [text]. *)
Definition occurs_in (needle text : string) : Prop :=
  exists before after, text = before +:+ needle +:+ after.

(** Both staged modifiers emptied, as [scrub_] leaves them for the next
    block. *)
Definition unstaged (st : Java) : Java :=
  set_EXTRAINDENT "" (set_POSTFIX "" st).

(** ** A concrete environment, to run the model *)

(** The properties of [Blockly.Java] as the file sets them when loaded
    (lines 94-175), in the year 2026 and with an empty equivalence
    table. *)
Definition initialJava : Java :=
  mkJava "" "" ∅ [] ∅ "myApp" "An AppInventor 2 Extension. Made With Rapid."
    "1.0" "0" "" "" "images/extension.png" "<<Your Name>>" "2026" "demo" ""
    [] [] None [] [] None None [] None.

Definition sample_nested (block : Block) : string :=
  match getCommentText block with
  | Some comment => if Js.truthy comment then comment +:+ Js.NL else ""
  | None => ""
  end.

#[local] Instance sampleCollaborators : Collaborators := {|
  Parms := unit;
  Blocks_GBPClass := fun _ => None;
  Variables_allVariables := fun _ => ["flag"; "label"];
  Variables_allVariablesTypes := fun _ => [("flag", "Boolean"); ("label", "String")];
  Variables_getLocalContext := fun _ _ => false;
  prefixLines := fun text prefix => prefix +:+ text;
  allNestedComments := sample_nested;
  blockToCode := fun block _ =>
    ret (match block with
         | Some b => block_type b +:+ ";" +:+ Js.NL
         | None => ""
         end);
  emitTopBlocks := fun _ _ => ret "";
  String_replace := fun text _ _ => text
|}.

Definition sampleWorkspace : Root :=
  mkRoot (Some (mkWsOptions (Some "Demo"))) None (Some []) "[object Object]".

Definition plainObject : Root :=
  mkRoot None None None "[object Object]".

Definition leafBlock (kind : string) (comment : option string)
    (output : option bool) : Block :=
  mkBlock kind comment output [] None None.

(** Two helpers, the second with [static] as its fourth word. *)
Definition helpersWithLateStatic : dict def :=
  [ ("alpha", DefText "void alpha() {}");
    ("omega", DefText "public final synchronized static void omega() {}") ].

(** A statement block commented [do X], with a commented block plugged
    into its value input and another commented block in its statement
    input. *)
Definition commentedStatement : Block :=
  mkBlock "text_print" (Some "do X") None
    [ (INPUT_VALUE, Some (leafBlock "text" (Some "helper note") (Some true)));
      (NEXT_STATEMENT, Some (leafBlock "inner" (Some "inner note") None));
      (DUMMY_INPUT, None) ]
    (Some None) None.

(** ** Vocabulary of the further properties *)

(** The number of line feeds a text starts with. *)
Fixpoint leading_line_feeds (s : string) : nat :=
  match s with
  | EmptyString => 0
  | String a s' =>
      if decide (a = "010"%char) then S (leading_line_feeds s') else 0
  end.

(** A run of [n] line feeds. *)
Fixpoint line_feeds (n : nat) : string :=
  match n with
  | O => EmptyString
  | S n' => String "010" (line_feeds n')
  end.

(** Three line feeds in a row, that is, two blank lines. *)
Definition two_blank_lines : string := Js.NL +:+ Js.NL +:+ Js.NL.

(** The sample workspace initialised, with [flag] marked global. *)
Definition stateWithGlobal : Java :=
  setGlobalVar (leafBlock "variables_set" None None) "flag" None
    (init sampleWorkspace initialJava).

(** ** The conversion of a value input to a string (java.js, lines 763-823) *)

(** What [toStringCode] asks of the block and of the generator base
    class, none of it among the sources. *)
Class EmitterCollaborators `{Collaborators} : Type := {
  getInputTargetBlock : Block -> string -> option Block;
  valueToCode : Block -> string -> Z -> M string;
  (** [Blockly.isNumber]. *)
  isNumber : string -> bool;
  provideFunction_ : string -> list string -> M string;
  (** [targetBlock.procedurePrefix_] and [targetBlock.getFieldValue],
      as the strings that concatenation makes of them. *)
  procedurePrefix_ : Block -> string;
  getFieldValue : Block -> string -> string
}.

Definition blocklyToString_lines : list string :=
  [
    "public static String blocklyToString(Object object) {";
    "    String result;";
    "    if (object instanceof String) {";
    "        result = (String) object;";
    "    } else {";
    "        // must be a number";
    "        // might be a double";
    "        try {";
    "            Double d = (double) object;";
    "            // it was a double, so keep going";
    "            NumberFormat formatter = new DecimalFormat(" +:+ Js.DQ +:+ "#.#####" +:+ Js.DQ +:+ ");";
    "            result = formatter.format(d);";
    "";
    "        } catch (Exception ex) {";
    "            // not a double, see if it is an integer";
    "            try {";
    "                Integer i = (int) object;";
    "                // format should be number with a decimal point";
    "                result = i.toString();";
    "            } catch (Exception ex2) {";
    "                // not a double or integer";
    "                result = " +:+ Js.DQ +:+ "UNKNOWN" +:+ Js.DQ +:+ ";";
    "            }";
    "        }";
    "    }";
    "";
    "  return result;";
    "}" ].

Section to_string.
Context `{EmitterCollaborators}.

(** Whether [item.charAt(0)] is a double quote. *)
Definition starts_with_quote (item : string) : bool :=
  match item with
  | String a _ => bool_decide (a = "034"%char)
  | EmptyString => false
  end.

Definition toStringCode (block : Block) (inputName : string) : M string :=
  match getInputTargetBlock block inputName with
  | None => ret ""
  | Some targetBlock =>
      item <- valueToCode block inputName Order.ORDER_NONE ;;
      let item := Js.trim item in
      st <- get ;;
      if negb (bool_decide (item = "")) && negb (starts_with_quote item) then
        if bool_decide (block_type targetBlock = "variables_get")
           && bool_decide
                (GetVariableType
                   (procedurePrefix_ targetBlock
                    +:+ getFieldValue targetBlock "VAR") st = "Var")
        then ret (item +:+ ".toString()")
        else if isNumber item then ret (Js.DQ +:+ item +:+ Js.DQ)
        else if negb (bool_decide (block_type targetBlock = "variables_get"))
                && bool_decide (GetVariableType item st = "Var")
        then ret (item +:+ ".toString()")
        else
          _ <- modify (addImport "java.text.DecimalFormat") ;;
          _ <- modify (addImport "java.text.NumberFormat") ;;
          functionName <- provideFunction_ "blocklyToString"
                            blocklyToString_lines ;;
          ret (functionName +:+ "(" +:+ item +:+ ")")
      else ret item
  end.

End to_string.

(** A sample of these collaborators: the value of an input is the type
    of the block plugged into it. *)
Definition sample_target (block : Block) (inputName : string) : option Block :=
  match inputList block with
  | (INPUT_VALUE, target) :: _ => target
  | _ => None
  end.

#[local] Instance sampleEmitter : EmitterCollaborators := {|
  getInputTargetBlock := sample_target;
  valueToCode := fun block inputName _ =>
    ret (match sample_target block inputName with
         | Some target => " " +:+ block_type target +:+ " "
         | None => ""
         end);
  isNumber := fun item => bool_decide (item = "42");
  provideFunction_ := fun desiredName _ => ret desiredName;
  procedurePrefix_ := fun _ => "";
  getFieldValue := fun _ _ => "x"
|}.

(** * The timer (core/utils/timer.js) *)

Module Timer.

(** The timer object, [window] by default, as far as the timer uses
    it: the pending timeouts with their delays, and the handle that the
    next [setTimeout] returns.  [setTimeout] returns a new handle each
    time; [clearTimeout] forgets the timeout of a handle and ignores a
    handle that is not pending.  Times and intervals are whole
    milliseconds. *)
Record TimerObject : Type := mkTimerObject {
  pending : list (Z * Z);
  nextId : Z
}.

Definition setTimeout (delay : Z) (o : TimerObject) : Z * TimerObject :=
  (nextId o, mkTimerObject (pending o ++ [(nextId o, delay)]) (nextId o + 1)).

Definition clearTimeout (id : Z) (o : TimerObject) : TimerObject :=
  mkTimerObject (filter (fun p => p.1 <> id) (pending o)) (nextId o).

(** The properties of a timer (lines 28-61 and 94-122). *)
Record Timer : Type := mkTimer {
  interval_ : Z;
  enabled : bool;
  timer_ : option Z;
  last_ : Z;
  timerObject_ : TimerObject
}.

Definition MAX_TIMEOUT_ : Z := 2147483647.
Definition INVALID_TIMEOUT_ID_ : Z := -1.

(** [if (this.timer_)]: a handle that is neither null nor zero. *)
Definition hasTimer (t : Timer) : bool :=
  match timer_ t with
  | Some id => negb (id =? 0)
  | None => false
  end.

(** The constructor (lines 28-61): [opt_interval || 1]; [now] is what
    [goog.now()] returns. *)
Definition new (opt_interval : option Z) (timerObject : TimerObject)
    (now : Z) : Timer :=
  mkTimer (match opt_interval with
           | Some i => if i =? 0 then 1 else i
           | None => 1
           end)
          false None now timerObject.

(** [getInterval] (lines 129-132). *)
Definition getInterval (t : Timer) : Z := interval_ t.

(** [stop] (lines 224-231). *)
Definition stop (t : Timer) : Timer :=
  if hasTimer t then
    mkTimer (interval_ t) false None (last_ t)
            (clearTimeout (default 0 (timer_ t)) (timerObject_ t))
  else mkTimer (interval_ t) false (timer_ t) (last_ t) (timerObject_ t).

(** [start] (lines 197-218). *)
Definition start (now : Z) (t : Timer) : Timer :=
  if hasTimer t then
    mkTimer (interval_ t) true (timer_ t) (last_ t) (timerObject_ t)
  else
    let (id, o) := setTimeout (interval_ t) (timerObject_ t) in
    mkTimer (interval_ t) true (Some id) now o.

(** [setInterval] (lines 139-149). *)
Definition setInterval (interval now : Z) (t : Timer) : Timer :=
  let t := mkTimer interval (enabled t) (timer_ t) (last_ t) (timerObject_ t) in
  if hasTimer t && enabled t then start now (stop t)
  else if hasTimer t then stop t
  else t.

(** The calls that the owner of a timer makes on it, each with the
    time at which it is made, where the method reads the clock. *)
Inductive call : Type :=
  | Start (now : Z)
  | Stop
  | SetInterval (interval now : Z).

Definition run_call (t : Timer) (c : call) : Timer :=
  match c with
  | Start now => start now t
  | Stop => stop t
  | SetInterval interval now => setInterval interval now t
  end.

(** How a callback of the timer ends: it returns, or it throws an
    error with a message; either way it leaves the timer in a state. *)
Inductive ticked : Type :=
  | Returned (t : Timer)
  | Thrown (message : string) (t : Timer).

Definition state_of (r : ticked) : Timer :=
  match r with
  | Returned t => t
  | Thrown _ t => t
  end.

(** [dispatchTick] (lines 188-191) calls [this.dispatchEvent].  The
    file defines no [dispatchEvent] and sets up no inheritance, so the
    call throws a [TypeError]. *)
Definition dispatchTick (t : Timer) : ticked :=
  Thrown "this.dispatchEvent is not a function" t.

Section tick.
(** [elapsed < this.interval_ * Blockly.utils.Timer.intervalScale], a
    comparison of floating-point numbers that the model leaves open. *)
Variable belowScaledInterval : Z -> Z -> bool.

(** [tick_] (lines 156-182): [now] is what [Date.now()] returns and
    [later] what [goog.now()] returns after the tick was dispatched. *)
Definition tick_ (now later : Z) (t : Timer) : ticked :=
  if enabled t then
    let elapsed := now - last_ t in
    if (0 <? elapsed) && belowScaledInterval elapsed (interval_ t) then
      let (id, o) := setTimeout (interval_ t - elapsed) (timerObject_ t) in
      Returned (mkTimer (interval_ t) (enabled t) (Some id) (last_ t) o)
    else
      let t :=
        if hasTimer t then
          mkTimer (interval_ t) (enabled t) None (last_ t)
                  (clearTimeout (default 0 (timer_ t)) (timerObject_ t))
        else t in
      match dispatchTick t with
      | Thrown message t => Thrown message t
      | Returned t =>
          if enabled t then Returned (start later (stop t)) else Returned t
      end
  else Returned t.

(** The timer object runs the callback of a pending timeout: the
    timeout is no longer pending, and [tick_] is called. *)
Definition fire (now later : Z) (t : Timer) : ticked :=
  match pending (timerObject_ t) with
  | [] => Returned t
  | (id, _) :: _ =>
      tick_ now later
        (mkTimer (interval_ t) (enabled t) (timer_ t) (last_ t)
                 (clearTimeout id (timerObject_ t)))
  end.

(** What happens to a timer: a call of one of its methods, or a pending
    timeout that fires; an error thrown by the callback goes to the
    platform, and the timer stays as the callback left it. *)
Inductive event : Type :=
  | Call (c : call)
  | Fire (now later : Z).

Definition run_event (t : Timer) (e : event) : Timer :=
  match e with
  | Call c => run_call t c
  | Fire now later => state_of (fire now later t)
  end.

Definition run_events (events : list event) (t : Timer) : Timer :=
  fold_left run_event events t.

End tick.

Definition is_call (e : event) : Prop :=
  match e with
  | Call _ => True
  | Fire _ _ => False
  end.

(** The listener argument of [callOnce]: a function, an object (whose
    [handleEvent] may be a function), or anything else. *)
Inductive listener : Type :=
  | ListenerFunction
  | ListenerObject (handleEventIsFunction : bool)
  | ListenerOther.

(** [callOnce] (lines 264-285) on the default timer object; the error
    is the message of the [Error] thrown.  An undefined delay is
    [None]. *)
Definition callOnce (l : listener) (opt_delay : option Z) (o : TimerObject)
    : string + Z * TimerObject :=
  match l with
  | ListenerFunction | ListenerObject true =>
      if bool_decide (MAX_TIMEOUT_ < default 0 opt_delay)
      then inr (INVALID_TIMEOUT_ID_, o)
      else inr (setTimeout (default 0 opt_delay) o)
  | _ => inl "Invalid listener argument"
  end.

(** [clear] (lines 292-295). *)
Definition clear (timerId : Z) (o : TimerObject) : TimerObject :=
  clearTimeout timerId o.

(** [running]: at most one timeout is pending, it is the one that
    [timer_] holds, and only an enabled timer has one.  [settled]: the
    timer has a timeout exactly when it is enabled. *)
Definition running (t : Timer) : Prop :=
  0 < nextId (timerObject_ t)
  /\ match timer_ t with
     | None => pending (timerObject_ t) = []
     | Some id =>
         id <> 0 /\ enabled t = true
         /\ exists delay, pending (timerObject_ t) = [(id, delay)]
     end.

Definition settled (t : Timer) : Prop :=
  running t /\ (timer_ t = None -> enabled t = false).

End Timer.


(** The generator after [init], with one extra import configured. *)
Definition stateWithExtraImport : Java :=
  setExtraImports (Some ["x.X"]) (init sampleWorkspace initialJava).

(** The generator as loaded, with a base class configured. *)
Definition stateWithBaseclass : Java := setBaseclass "Helper" initialJava.

(** The generator after [init], holding three helper definitions and
    the entry named [variables]. *)
Definition sampleHelpers : dict def :=
  [ ("zeta", DefText "public static void zeta() {}");
    ("variables", DefText "int x;");
    ("alpha", DefText "void alpha() {}");
    ("Beta", DefText "static int Beta() {}") ].

Definition stateWithHelpers : Java :=
  set_definitions_ (Some sampleHelpers) (init sampleWorkspace initialJava).

(** A sample run of a timer: the comparison with the scaled interval
    on whole milliseconds, and calls and timeouts in turn. *)
Definition sampleBelowScaledInterval (elapsed interval : Z) : bool :=
  elapsed * 10 <? interval * 8.

Definition sampleEvents : list Timer.event :=
  [Timer.Call (Timer.Start 5);
   Timer.Fire 50 51;
   Timer.Call (Timer.SetInterval 50 60);
   Timer.Fire 200 201;
   Timer.Call (Timer.Start 300);
   Timer.Call Timer.Stop].

Definition sampleCalls : list Timer.event :=
  [Timer.Call (Timer.Start 5);
   Timer.Call (Timer.SetInterval 50 60);
   Timer.Call Timer.Stop;
   Timer.Call (Timer.Start 300)].
(** * Properties *)

(** ** Strings, dictionaries and sorting *)

Lemma string_app_cons (a : ascii) (s t : string) :
  String a s +:+ t = String a (s +:+ t).
Proof. reflexivity. Qed.

Lemma string_app_nil_l (s : string) : "" +:+ s = s.
Proof. reflexivity. Qed.

Lemma string_app_nil_r (s : string) : s +:+ "" = s.
Proof.
  induction s as [|a s IH]; [reflexivity|].
  by rewrite string_app_cons, IH.
Qed.

Lemma string_app_assoc (s t u : string) : (s +:+ t) +:+ u = s +:+ (t +:+ u).
Proof.
  induction s as [|a s IH]; [reflexivity|].
  by rewrite !string_app_cons, IH.
Qed.

Lemma occurs_in_refl (needle : string) : occurs_in needle needle.
Proof. exists "", "". by rewrite string_app_nil_r. Qed.

Lemma occurs_in_left (needle text after : string) :
  occurs_in needle text -> occurs_in needle (text +:+ after).
Proof.
  intros (b & a & ->). exists b, (a +:+ after). by rewrite !string_app_assoc.
Qed.

Lemma occurs_in_right (needle text before : string) :
  occurs_in needle text -> occurs_in needle (before +:+ text).
Proof.
  intros (b & a & ->). exists (before +:+ b), a. by rewrite !string_app_assoc.
Qed.

Lemma dict_keys_cons {V : Type} (k : string) (v : V) (d : dict V) :
  dict_keys ((k, v) :: d) = k :: dict_keys d.
Proof. reflexivity. Qed.

Lemma dict_values_cons {V : Type} (k : string) (v : V) (d : dict V) :
  dict_values ((k, v) :: d) = v :: dict_values d.
Proof. reflexivity. Qed.

Lemma dict_keys_set {V : Type} (k : string) (v : V) (d : dict V) :
  dict_keys (dict_set k v d)
  = if bool_decide (k ∈ dict_keys d) then dict_keys d else dict_keys d ++ [k].
Proof.
  induction d as [|[k' v'] d IH]; [done|].
  cbn [dict_set]. destruct (decide (k' = k)) as [->|Hne].
  - rewrite !dict_keys_cons, bool_decide_eq_true_2; [done|set_solver].
  - rewrite !dict_keys_cons, IH.
    destruct (bool_decide_reflect (k ∈ dict_keys d)) as [Hin|Hout].
    + rewrite bool_decide_eq_true_2; [done|set_solver].
    + rewrite bool_decide_eq_false_2; [done|set_solver].
Qed.

Lemma dict_keys_set_elem {V : Type} (k x : string) (v : V) (d : dict V) :
  x ∈ dict_keys (dict_set k v d) <-> x = k \/ x ∈ dict_keys d.
Proof. rewrite dict_keys_set. case_bool_decide; set_solver. Qed.

Lemma dict_keys_set_NoDup {V : Type} (k : string) (v : V) (d : dict V) :
  NoDup (dict_keys d) -> NoDup (dict_keys (dict_set k v d)).
Proof.
  intros Hd. rewrite dict_keys_set. case_bool_decide; [done|].
  apply NoDup_app. split_and!; [done| |apply NoDup_singleton].
  intros x Hx ->%list_elem_of_singleton. done.
Qed.

Lemma dict_values_set_self (k : string) (d : dict string) :
  dict_values d = dict_keys d ->
  dict_values (dict_set k k d) = dict_keys (dict_set k k d).
Proof.
  induction d as [|[k' v'] d IH]; [done|].
  rewrite dict_keys_cons, dict_values_cons. intros [= -> Hd].
  cbn [dict_set]. destruct (decide (k' = k)).
  - by rewrite dict_keys_cons, dict_values_cons, Hd.
  - by rewrite dict_keys_cons, dict_values_cons, IH.
Qed.

Lemma dict_set_idem {V : Type} (k : string) (v : V) (d : dict V) :
  dict_set k v (dict_set k v d) = dict_set k v d.
Proof.
  induction d as [|[k' v'] d IH]; cbn [dict_set].
  - by rewrite decide_True.
  - destruct (decide (k' = k)) as [->|Hne]; cbn [dict_set].
    + by rewrite decide_True.
    + by rewrite decide_False, IH.
Qed.

Lemma dict_get_set {V : Type} (k k' : string) (v : V) (d : dict V) :
  dict_get k (dict_set k' v d)
  = if decide (k' = k) then Some v else dict_get k d.
Proof.
  induction d as [|[k0 v0] d IH]; cbn [dict_set dict_get].
  - done.
  - destruct (decide (k0 = k')) as [->|Hne]; cbn [dict_get].
    + destruct (decide (k' = k)); done.
    + rewrite IH. destruct (decide (k0 = k)) as [->|]; [|done].
      by rewrite decide_False.
Qed.

Lemma dict_get_values {V : Type} (k : string) (v : V) (d : dict V) :
  dict_get k d = Some v -> v ∈ dict_values d.
Proof.
  induction d as [|[k0 v0] d IH]; cbn [dict_get]; [done|].
  rewrite dict_values_cons. destruct (decide (k0 = k)); [|set_solver].
  intros [= ->]. set_solver.
Qed.

Lemma dict_get_entry {V : Type} (k : string) (v : V) (d : dict V) :
  NoDup (dict_keys d) -> (k, v) ∈ d -> dict_get k d = Some v.
Proof.
  induction d as [|[k0 v0] d IH]; [set_solver|].
  rewrite dict_keys_cons, NoDup_cons. intros [Hk0 Hd] Hin. cbn [dict_get].
  apply elem_of_cons in Hin as [Heq|Hin];
    [injection Heq as <- <-; by rewrite decide_True|].
  rewrite decide_False; [by apply IH|].
  intros ->. apply Hk0. by apply (list_elem_of_fmap_2 fst _ (k, v)).
Qed.

(** [Js.sort] returns the sorted arrangement of its argument. *)
Lemma sort_Sorted (l : list string) : Sorted String.le (Js.sort l).
Proof. apply (Sorted_merge_sort String.le). Qed.

Lemma sort_Permutation (l : list string) : Js.sort l ≡ₚ l.
Proof. apply (merge_sort_Permutation String.le). Qed.

Lemma sort_elem (x : string) (l : list string) : x ∈ Js.sort l <-> x ∈ l.
Proof. by rewrite sort_Permutation. Qed.

Lemma sort_NoDup (l : list string) : NoDup l -> NoDup (Js.sort l).
Proof. by rewrite sort_Permutation. Qed.

Lemma sort_same_elements (l1 l2 : list string) :
  NoDup l1 -> NoDup l2 -> (forall x, x ∈ l1 <-> x ∈ l2) ->
  Js.sort l1 = Js.sort l2.
Proof.
  intros H1 H2 Heq. apply (Sorted_unique String.le); try apply sort_Sorted.
  rewrite !sort_Permutation. by apply NoDup_Permutation.
Qed.

(** ** The precedence table *)

Lemma needsParens_iff (childCategory parentContext : Z) :
  Order.needsParens childCategory parentContext = true
  <-> parentContext < childCategory.
Proof. unfold Order.needsParens. apply Z.ltb_lt. Qed.

(** C1: in the table the multiplicative category is stronger (a smaller
    number) than the additive one, the conditional category is weaker
    than the additive one, and [ORDER_NONE] is weaker than every other
    category; so, with a child parenthesized exactly when its number is
    larger than the one of the parent context, a multiplicative operand
    of an additive parent gets no parentheses, a conditional operand of
    an additive parent gets them, and a parent without context never
    asks for them. *)
Theorem C1_precedence_table_and_parentheses :
  Order.ORDER_MULTIPLICATIVE < Order.ORDER_ADDITIVE
  /\ Order.ORDER_ADDITIVE < Order.ORDER_CONDITIONAL
  /\ (forall c, c = Order.NoContext \/ Order.order_of c < Order.ORDER_NONE)
  /\ (forall child parent,
        Order.needsParens child parent = true <-> parent < child)
  /\ Order.needsParens Order.ORDER_MULTIPLICATIVE Order.ORDER_ADDITIVE = false
  /\ Order.needsParens Order.ORDER_CONDITIONAL Order.ORDER_ADDITIVE = true
  /\ (forall c, Order.needsParens (Order.order_of c) Order.ORDER_NONE = false).
Proof.
  split_and!; try done.
  - intros []; (by left) || (by right).
  - apply needsParens_iff.
  - by intros [].
Qed.

(** ** The import registry *)

Lemma imports_addImport (importlib : string) (st : Java) :
  imports_ (addImport importlib st)
  = dict_set (importStatement importlib) (importStatement importlib)
             (imports_ st).
Proof. reflexivity. Qed.

Lemma ExtraImports_addImports (libs : list string) (st : Java) :
  ExtraImports_ (addImports libs st) = ExtraImports_ st.
Proof.
  revert st. induction libs as [|l libs IH]; intros st; [done|].
  unfold addImports in *. cbn [fold_left]. by rewrite IH.
Qed.

Lemma addImports_app (libs1 libs2 : list string) (st : Java) :
  addImports (libs1 ++ libs2) st = addImports libs2 (addImports libs1 st).
Proof. apply fold_left_app. Qed.

Lemma addImports_cons (l : string) (libs : list string) (st : Java) :
  addImports (l :: libs) st = addImports libs (addImport l st).
Proof. reflexivity. Qed.

Lemma withExtraImports_addImports (libs : list string) (st : Java) :
  withExtraImports (addImports libs st)
  = addImports (libs ++ default [] (ExtraImports_ st)) st.
Proof.
  unfold withExtraImports. rewrite ExtraImports_addImports, addImports_app.
  by destruct (ExtraImports_ st).
Qed.

(** The table that [addImport] maintains: distinct property names, each
    holding itself, one per registered library. *)
Lemma imports_addImports (libs : list string) (st : Java) :
  NoDup (dict_keys (imports_ st)) ->
  dict_values (imports_ st) = dict_keys (imports_ st) ->
  NoDup (dict_keys (imports_ (addImports libs st)))
  /\ dict_values (imports_ (addImports libs st))
     = dict_keys (imports_ (addImports libs st))
  /\ forall x, x ∈ dict_keys (imports_ (addImports libs st))
       <-> x ∈ dict_keys (imports_ st)
           \/ exists l, l ∈ libs /\ x = importStatement l.
Proof.
  revert st. induction libs as [|l libs IH]; intros st Hnd Hval.
  - split_and!; [done..|]. intros x. set_solver.
  - rewrite addImports_cons.
    destruct (IH (addImport l st)) as (IH1 & IH2 & IH3).
    + rewrite imports_addImport. by apply dict_keys_set_NoDup.
    + rewrite imports_addImport. by apply dict_values_set_self.
    + split_and!; [done..|]. intros x. rewrite IH3, imports_addImport.
      rewrite dict_keys_set_elem. set_solver.
Qed.

Lemma importLines_addImports (libs : list string) (st : Java) :
  imports_ st = [] ->
  NoDup (dict_values (imports_ (withExtraImports (addImports libs st))))
  /\ forall x,
       x ∈ dict_values (imports_ (withExtraImports (addImports libs st)))
       <-> exists l, (l ∈ libs \/ l ∈ default [] (ExtraImports_ st))
                     /\ x = importStatement l.
Proof.
  intros Hempty. rewrite withExtraImports_addImports.
  destruct (imports_addImports (libs ++ default [] (ExtraImports_ st)) st)
    as (H1 & H2 & H3).
  { rewrite Hempty. constructor. }
  { by rewrite Hempty. }
  rewrite H2. split; [done|]. intros x. rewrite H3, Hempty.
  setoid_rewrite elem_of_app. set_solver.
Qed.

(** C2: whatever the order and the repetitions of the calls to
    [addImport], [getImports] returns the same text: the lines of a
    lexicographically sorted, duplicate-free list, joined by line
    feeds, whose members are exactly the statements [import l;] of the
    registered libraries and of the extra imports; a second [addImport]
    of the same library changes nothing. *)
Theorem C2_getImports_order_independent
    (st : Java) (libs1 libs2 : list string) :
  imports_ st = [] ->
  (forall l, l ∈ libs1 <-> l ∈ libs2) ->
  result (getImports (addImports libs1 st))
  = result (getImports (addImports libs2 st))
  /\ (exists lines,
        result (getImports (addImports libs1 st))
        = Some (String.concat Js.NL lines)
        /\ Sorted String.le lines
        /\ NoDup lines
        /\ (forall x, x ∈ lines
              <-> exists l, (l ∈ libs1 \/ l ∈ default [] (ExtraImports_ st))
                            /\ x = "import " +:+ l +:+ ";"))
  /\ (forall l s,
        result (getImports (addImport l (addImport l s)))
        = result (getImports (addImport l s))
        /\ addImport l (addImport l s) = addImport l s).
Proof.
  intros Hempty Hsame.
  destruct (importLines_addImports libs1 st Hempty) as [Hnd1 Hin1].
  destruct (importLines_addImports libs2 st Hempty) as [Hnd2 Hin2].
  assert (importLines (addImports libs1 st) = importLines (addImports libs2 st))
    as Hlines.
  { unfold importLines. apply sort_same_elements; [done..|].
    intros x. rewrite Hin1, Hin2. by setoid_rewrite Hsame. }
  split_and!.
  - cbn [getImports result]. by rewrite Hlines.
  - exists (importLines (addImports libs1 st)). split_and!.
    + reflexivity.
    + apply sort_Sorted.
    + by apply sort_NoDup.
    + intros x. unfold importLines. by rewrite sort_elem, Hin1.
  - intros l s.
    assert (addImport l (addImport l s) = addImport l s) as Hidem.
    { unfold addImport. destruct s; cbn. by rewrite dict_set_idem. }
    by rewrite Hidem.
Qed.

Lemma C2_getImports_order_independent_witness :
  result (getImports (addImports ["b.B"; "a.A"; "b.B"] stateWithExtraImport))
  = Some ("import a.A;" +:+ Js.NL +:+ "import b.B;" +:+ Js.NL
          +:+ "import x.X;")
  /\ result (getImports (addImports ["b.B"; "a.A"; "b.B"] stateWithExtraImport))
     = result (getImports (addImports ["a.A"; "b.B"] stateWithExtraImport)).
Proof.
  split; [reflexivity|].
  apply (C2_getImports_order_independent stateWithExtraImport
           ["b.B"; "a.A"; "b.B"] ["a.A"; "b.B"]).
  - reflexivity.
  - intros l. rewrite !elem_of_cons. rewrite !elem_of_nil. tauto.
Defined.

(** ** The helper definitions emitted by [finish] *)

Lemma slot_of_cases (d : def) : slot_of d = 0%nat \/ slot_of d = 1%nat.
Proof. destruct d as [text|]; cbn; [|by right]. case_match; auto. Qed.

Lemma slot_of_static (d : def) :
  slot_of d = 0%nat
  <-> exists text, d = DefText text /\ "static" ∈ take 3 (Js.split " " text).
Proof.
  destruct d as [text|produces]; cbn.
  - unfold Js.contains, Js.split_limit. case_bool_decide; split.
    + intros _. by exists text.
    + done.
    + done.
    + intros (text' & [= <-] & Hin). done.
  - split; [done|]. by intros (text & [=] & _).
Qed.

Lemma group_cons (slot : nat) (entry : string * def) (definitions : dict def) :
  group slot (entry :: definitions)
  = if decide (entry.1 <> "variables" /\ slot_of entry.2 = slot)
    then entry.1 :: group slot definitions
    else group slot definitions.
Proof.
  unfold group. rewrite filter_cons. by destruct (decide _).
Qed.

Lemma funcs_of_groups_from (definitions : dict def) (acc : list string * list string) :
  fold_left push_func definitions acc
  = (acc.1 ++ group 0 definitions, acc.2 ++ group 1 definitions).
Proof.
  revert acc. induction definitions as [|entry definitions IH]; intros [a b].
  - cbn. by rewrite !app_nil_r.
  - cbn [fold_left]. rewrite IH, !(group_cons _ entry). unfold push_func.
    destruct (decide (entry.1 = "variables")) as [Hv|Hv].
    + rewrite !decide_False by tauto. done.
    + destruct (slot_of_cases entry.2) as [Hs|Hs]; rewrite Hs; cbn [fst snd].
      * rewrite decide_True by done. rewrite decide_False by (intros [_ [=]]).
        by rewrite <- app_assoc.
      * rewrite decide_False by (intros [_ [=]]). rewrite decide_True by done.
        by rewrite <- app_assoc.
Qed.

Lemma funcs_of_groups (definitions : dict def) :
  funcs_of definitions = (group 0 definitions, group 1 definitions).
Proof. apply (funcs_of_groups_from definitions ([], [])). Qed.

Lemma groups_Permutation (definitions : dict def) :
  group 0 definitions ++ group 1 definitions
  ≡ₚ filter (fun fname => fname <> "variables") (dict_keys definitions).
Proof.
  induction definitions as [|[fname d] definitions IH]; [done|].
  rewrite !group_cons, dict_keys_cons, filter_cons. cbn [fst snd].
  destruct (decide (fname <> "variables")) as [Hv|Hv].
  - destruct (slot_of_cases d) as [Hs|Hs]; rewrite Hs.
    + rewrite decide_True by done. rewrite decide_False by (intros [_ [=]]).
      cbn. by rewrite IH.
    + rewrite decide_False by (intros [_ [=]]). rewrite decide_True by done.
      rewrite <- Permutation_middle. by rewrite IH.
  - rewrite !decide_False by tauto. done.
Qed.

Lemma emissionOrder_groups (definitions : dict def) :
  emissionOrder definitions
  = Js.sort (group 0 definitions) ++ Js.sort (group 1 definitions).
Proof. unfold emissionOrder. by rewrite funcs_of_groups. Qed.

Lemma emissionOrder_Permutation (definitions : dict def) :
  emissionOrder definitions
  ≡ₚ filter (fun fname => fname <> "variables") (dict_keys definitions).
Proof.
  rewrite emissionOrder_groups, !sort_Permutation. apply groups_Permutation.
Qed.

Lemma dict_keys_entry {V : Type} (k : string) (d : dict V) :
  k ∈ dict_keys d -> exists v, (k, v) ∈ d.
Proof.
  intros ([k' v] & -> & Hin)%list_elem_of_fmap. by exists v.
Qed.



(** C3 as stated fails: a helper whose text has [static] as its fourth
    word is emitted with the instance-like group, after a helper
    without [static]. *)
Lemma C3_late_static_counterexample :
  NoDup (dict_keys helpersWithLateStatic)
  /\ emissionOrder helpersWithLateStatic = ["alpha"; "omega"]
  /\ emissionOrder_spec helpersWithLateStatic = ["omega"; "alpha"]
  /\ emissionOrder helpersWithLateStatic
     <> emissionOrder_spec helpersWithLateStatic.
Proof.
  split_and!.
  - vm_compute. repeat constructor; set_solver.
  - by vm_compute.
  - by vm_compute.
  - by vm_compute.
Qed.

(** ** The type mapper *)

Lemma split_without_separator (sep : ascii) (s : string) :
  Js.has_char sep s = false -> Js.split sep s = [s].
Proof.
  induction s as [|a s IH]; [done|]. cbn [Js.has_char Js.split].
  intros [Ha Hs]%orb_false_iff. apply bool_decide_eq_false in Ha.
  rewrite decide_False by done. by rewrite IH.
Qed.

Section type_mapper.
Context `{Collaborators}.

Lemma mapToken_unknown (equivalence : gmap string (list string))
    (mapping : dict string) (key : string) :
  dict_get key mapping = None -> Js.inherited key = None ->
  Blocks_GBPClass key = None ->
  equivalence !! key = None ->
  mapToken equivalence mapping key
  = ("Object", ["Unknown type for " +:+ key +:+ " using Var for " +:+ key]).
Proof.
  intros Hmap Hproto Hblock Hequiv. unfold mapToken.
  rewrite Hmap, Hproto, Hblock, Hequiv.
  rewrite bool_decide_eq_false_2; [done|]. by intros [? [=]].
Qed.

Lemma mapType_empty (st : Java) :
  mapType_console None st = ("Object", ["Empty type. Using Object"])
  /\ mapType_console (Some "") st = ("Object", ["Empty type. Using Object"]).
Proof. split; reflexivity. Qed.

(** The entry of the table for the logical type of truth values. *)
Lemma mapType_Boolean (st : Java) : mapType (Some "Boolean") st = "boolean".
Proof. reflexivity. Qed.

(** A token that is in neither mapping table, is not inherited by
    them, names no block class and is not in the type-equivalence
    table is mapped to [Object], with a diagnostic. *)
Lemma mapType_unknown_token (st : Java) (token : string) :
  Js.has_char ":" token = false ->
  dict_get token typeMapping = None ->
  Js.inherited token = None ->
  Blocks_GBPClass token = None ->
  VariableTypeEquivalence st !! token = None ->
  mapType (Some token) st = "Object"
  /\ (mapType_console (Some token) st).2 <> [].
Proof.
  intros Hcolon Hmap Hproto Hblock Hequiv.
  assert (mapType_console (Some token) st = ("Object", ["Empty type. Using Object"])
          \/ mapType_console (Some token) st
             = ("Object",
                ["Unknown type for " +:+ token +:+ " using Var for " +:+ token]))
    as Htoken.
  { unfold mapType_console. cbn [Js.truthy_opt from_option id]. unfold Js.truthy.
    case_bool_decide as Hempty; cbn [negb].
    - by left.
    - right. rewrite (split_without_separator _ _ Hcolon). cbn [mapType_].
      by rewrite mapToken_unknown. }
  unfold mapType. by destruct Htoken as [-> | ->].
Qed.

(** C4: the fall-back to [Object] misses the names that an object
    literal inherits.  The logical type [constructor] is in neither
    mapping table, yet [typeMapping[type]] is truthy for it: [mapType]
    returns the constructor of [Object], not [Object], and logs no
    diagnostic, whatever the block classes and the equivalence table
    are.  Likewise [GetVariableType] returns a function for the name
    [toString] when no type is recorded at all. *)
Theorem C4_inherited_names_escape_the_fallback (st : Java) :
  dict_get "constructor" typeMapping = None
  /\ mapType_console (Some "constructor") st
     = ("function Object() { [native code] }", [])
  /\ mapType (Some "constructor") st <> "Object"
  /\ variableTypes_ (set_variableTypes_ ∅ st) !! "toString" = None
  /\ GetVariableType "toString" (set_variableTypes_ ∅ st)
     = "function toString() { [native code] }"
  /\ GetVariableType "toString" (set_variableTypes_ ∅ st) <> "Object".
Proof.
  split_and!; try reflexivity; discriminate.
Qed.

End type_mapper.

(** ** The fields of the global variables *)

Lemma initializer_of_explicit (value type : string) :
  value <> "" -> initializer_of (Some value) type = " = " +:+ value.
Proof.
  intros Hvalue. unfold initializer_of, Js.truthy_opt, Js.truthy.
  by rewrite bool_decide_eq_false_2.
Qed.

Lemma initializer_of_defaults :
  initializer_of None "String" = " = " +:+ Js.DQ +:+ Js.DQ
  /\ initializer_of None "Var" = " = new Var()"
  /\ initializer_of None "Boolean" = " = false"
  /\ initializer_of None "boolean" = ""
  /\ initializer_of (Some "") "boolean" = "".
Proof. split_and!; reflexivity. Qed.

(** C5 fails on the code: a global variable of logical type [Boolean]
    has the resolved type [boolean] of [typeMapping], which [finish]
    does not recognise, and its field is declared without initializer;
    the field of a [String] variable receives the empty string. *)
Theorem C5_boolean_field_declared_without_initializer :
  let block := leafBlock "variables_set" None None in
  let st :=
    setGlobalVar block "label" None
      (setGlobalVar block "flag" None (init sampleWorkspace initialJava)) in
  GetBlocklyType "flag" st = Some "Boolean"
  /\ GetVariableType "flag" st = "boolean"
  /\ globals_ st = [("flag", None); ("label", None)]
  /\ result (fieldDeclarations (for_in (globals_ st)) st)
     = Some ("protected boolean flag;" +:+ Js.NL
             +:+ "protected String label = " +:+ Js.DQ +:+ Js.DQ +:+ ";"
             +:+ Js.NL).
Proof. by vm_compute. Qed.

(** ** Roots that are neither a block nor a workspace *)

Section fatal_root.
Context `{Collaborators}.

Lemma forceUpdate_rejects (root : Root) (st : Java) :
  getDescendants root = None -> getAllBlocks root = None ->
  forceUpdate root st
  = Raise (Thrown ("Not Block or Workspace: " +:+ rootString root)) st.
Proof. intros Hd Ha. unfold forceUpdate. by rewrite Hd, Ha. Qed.

Lemma workspaceToCode_rejects (root : Root) (o : WsOptions) (parms : Parms)
    (st : Java) :
  options root = Some o ->
  getDescendants root = None -> getAllBlocks root = None ->
  workspaceToCode root parms st
  = Raise (Thrown ("Not Block or Workspace: " +:+ rootString root))
          (setAppName (appTitle o) st).
Proof.
  intros Ho Hd Ha. unfold workspaceToCode. rewrite Ho.
  unfold bind at 1. cbn [ret]. unfold bind at 1. cbn [modify].
  unfold bind at 1. by rewrite forceUpdate_rejects.
Qed.

Lemma workspaceToCode_no_output (root : Root) (parms : Parms) (st : Java) :
  getDescendants root = None -> getAllBlocks root = None ->
  result (workspaceToCode root parms st) = None.
Proof.
  intros Hd Ha. destruct (options root) as [o|] eqn:Ho.
  - by rewrite (workspaceToCode_rejects root o).
  - unfold workspaceToCode. by rewrite Ho.
Qed.

(** C6 fails on the code: for a root that is neither a block nor a
    workspace and has no [options], [workspaceToCode] stops at
    [workspace.options.appTitle] with a [TypeError], before
    [forceUpdate] is reached; the error is not the one that names the
    root.  No output is produced. *)
Theorem C6_root_without_options_raises_TypeError (parms : Parms) (st : Java) :
  workspaceToCode plainObject parms st
  = Raise (TypeError "Cannot read property appTitle of undefined") st
  /\ forceUpdate plainObject st
     = Raise (Thrown "Not Block or Workspace: [object Object]") st.
Proof. split; reflexivity. Qed.

End fatal_root.

(** ** The comment scrubber *)

Lemma concat_empty_cons (x : string) (l : list string) :
  String.concat "" (x :: l) = x +:+ String.concat "" l.
Proof.
  destruct l as [|y l]; cbn [String.concat]; [by rewrite string_app_nil_r|done].
Qed.

Section scrubber.
Context `{Collaborators}.

Lemma addInputComment_value (commentCode : string) (childBlock : Block) :
  addInputComment commentCode (INPUT_VALUE, Some childBlock)
  = commentCode +:+ nestedComment childBlock.
Proof.
  unfold addInputComment, nestedComment.
  destruct (Js.truthy _); [done|by rewrite string_app_nil_r].
Qed.

Lemma fold_addInputComment (inputs : list (inputType * option Block))
    (commentCode : string) :
  fold_left addInputComment inputs commentCode
  = commentCode
    +:+ String.concat ""
          (nestedComment
             <$> omap (fun input =>
                         match input with
                         | (INPUT_VALUE, Some childBlock) => Some childBlock
                         | _ => None
                         end) inputs).
Proof.
  revert commentCode.
  induction inputs as [|[kind target] inputs IH]; intros commentCode.
  - cbn. by rewrite string_app_nil_r.
  - cbn [fold_left]. rewrite IH.
    destruct kind, target as [childBlock|]; try reflexivity.
    rewrite addInputComment_value. cbn [omap list_omap].
    by rewrite fmap_cons, concat_empty_cons, string_app_assoc.
Qed.

Lemma fold_addInputComment_value_inputs
    (inputs : list (inputType * option Block)) (commentCode : string) :
  fold_left addInputComment
    (filter (fun input => input.1 = INPUT_VALUE) inputs) commentCode
  = fold_left addInputComment inputs commentCode.
Proof.
  revert commentCode.
  induction inputs as [|[kind target] inputs IH]; intros commentCode; [done|].
  rewrite filter_cons. cbn [fst fold_left].
  destruct (decide (kind = INPUT_VALUE)) as [->|Hkind].
  - cbn [fold_left]. apply IH.
  - rewrite IH. by destruct kind.
Qed.

(** One call of [scrub_], in terms of the emission of the next block. *)
Lemma scrub_next (block : Block) (code : string) (parms : Parms) (st : Java) :
  scrub_ block code parms st
  = match blockToCode (nextBlock_of block) parms (unstaged st) with
    | Ret nextCode st' =>
        Ret (commentCode_of block +:+ code
             +:+ indented (EXTRAINDENT st) nextCode +:+ POSTFIX st) st'
    | Raise e st' => Raise e st'
    end.
Proof.
  unfold scrub_, bind, get, modify, ret, unstaged, nextBlock_of, indented.
  cbn. by destruct (blockToCode _ _ _).
Qed.

(** C7: for a block that is not inline, [scrub_] puts before the code
    of the block its own comment as [//] lines and then the nested
    comments of the blocks plugged into its value inputs, in input
    order; statement inputs add nothing, and a block that is plugged
    into a value input of a parent adds no comment of its own. *)
Theorem C7_scrub_collects_comments_parent_first
    (block : Block) (code : string) (parms : Parms) (st : Java) :
  outputConnection block = None \/ outputConnection block = Some false ->
  commentCode_of block
  = ownComment block
    +:+ String.concat "" (nestedComment <$> valueChildren block)
  /\ (forall comment, getCommentText block = Some comment -> comment <> "" ->
        ownComment block = prefixLines comment "// " +:+ Js.NL)
  /\ (forall text, result (scrub_ block code parms st) = Some text ->
        exists rest, text = commentCode_of block +:+ code +:+ rest)
  /\ commentCode_of (valueInputsOnly block) = commentCode_of block
  /\ (forall inlineBlock, outputConnection inlineBlock = Some true ->
        commentCode_of inlineBlock = "").
Proof.
  intros Hout.
  assert (isInline block = false) as Hinline.
  { unfold isInline. by destruct Hout as [-> | ->]. }
  split_and!.
  - unfold commentCode_of, valueChildren. rewrite Hinline.
    apply fold_addInputComment.
  - intros comment Hcomment Hne. unfold ownComment, Js.truthy.
    rewrite Hcomment. by rewrite bool_decide_eq_false_2.
  - intros text. rewrite scrub_next.
    destruct (blockToCode _ _ _) as [nextCode st'|]; [|done].
    intros [= <-]. eauto.
  - unfold commentCode_of, valueInputsOnly, isInline, ownComment. cbn.
    by rewrite fold_addInputComment_value_inputs.
  - intros inlineBlock Hconnected. unfold commentCode_of, isInline.
    by rewrite Hconnected.
Qed.

(** C8: [scrub_] emits the next block in the state in which both staged
    modifiers are empty, whatever was staged; the staged extra indent
    is applied to the code of the next chain only and the staged
    postfix is appended once, after it. *)
Theorem C8_scrub_consumes_staged_modifiers
    (block : Block) (code : string) (parms : Parms) (st : Java) :
  POSTFIX (unstaged st) = ""
  /\ EXTRAINDENT (unstaged st) = ""
  /\ (forall postFix extraIndent,
        unstaged (set_POSTFIX postFix (set_EXTRAINDENT extraIndent st))
        = unstaged st)
  /\ scrub_ block code parms st
     = match blockToCode (nextBlock_of block) parms (unstaged st) with
       | Ret nextCode st' =>
           Ret (commentCode_of block +:+ code
                +:+ indented (EXTRAINDENT st) nextCode +:+ POSTFIX st) st'
       | Raise e st' => Raise e st'
       end
  /\ (forall postFix extraIndent,
        final_state
          (scrub_ block code parms
             (set_POSTFIX postFix (set_EXTRAINDENT extraIndent st)))
        = final_state (scrub_ block code parms (unstaged st)))
  /\ (forall extraIndent nextCode, extraIndent <> "" ->
        indented extraIndent nextCode = prefixLines nextCode extraIndent)
  /\ (forall nextCode, indented "" nextCode = nextCode).
Proof.
  split_and!; try reflexivity; try apply scrub_next.
  - intros postFix extraIndent. rewrite !scrub_next.
    change (unstaged (set_POSTFIX _ (set_EXTRAINDENT _ st))) with (unstaged st).
    change (unstaged (unstaged st)) with (unstaged st).
    by destruct (blockToCode _ _ _).
  - intros extraIndent nextCode Hne. unfold indented. by rewrite decide_False.
Qed.

End scrubber.

Lemma C7_scrub_collects_comments_parent_first_witness :
  commentCode_of commentedStatement
  = ("// do X" +:+ Js.NL) +:+ String.concat "" ["// helper note" +:+ Js.NL].
Proof.
  apply (@C7_scrub_collects_comments_parent_first sampleCollaborators
           commentedStatement "print();" tt initialJava).
  left. reflexivity.
Defined.

(** ** The initialisation of a run *)

Lemma set_imports_eta (st : Java) : set_imports_ (imports_ st) st = st.
Proof. by destruct st. Qed.

Lemma addImports_set_imports (libs : list string) (st : Java) :
  addImports libs st = set_imports_ (imports_ (addImports libs st)) st.
Proof.
  revert st. induction libs as [|l libs IH]; intros st.
  - symmetry. apply set_imports_eta.
  - rewrite addImports_cons, IH. reflexivity.
Qed.

Lemma fold_insert_lookup_other (g : string -> string) (keys : list string)
    (m : gmap string string) (key : string) :
  key ∉ keys ->
  fold_left (fun m k => <[k := g k]> m) keys m !! key = m !! key.
Proof.
  revert m. induction keys as [|k keys IH]; intros m Hout; [done|].
  cbn [fold_left]. rewrite IH by set_solver.
  apply lookup_insert_ne. set_solver.
Qed.

Lemma fold_insert_lookup (g : string -> string) (keys : list string)
    (m : gmap string string) (key : string) :
  key ∈ keys ->
  fold_left (fun m k => <[k := g k]> m) keys m !! key = Some (g key).
Proof.
  revert m. induction keys as [|k keys IH]; intros m Hin; [set_solver|].
  cbn [fold_left]. destruct (decide (key ∈ keys)) as [Hlater|Hlater].
  - by apply IH.
  - rewrite fold_insert_lookup_other by done.
    apply elem_of_cons in Hin as [->|Hin]; [|done].
    apply lookup_insert_eq.
Qed.

Section initialisation.
Context `{Collaborators}.

Lemma mapType_same_equivalence (type : option string) (st st' : Java) :
  VariableTypeEquivalence st = VariableTypeEquivalence st' ->
  mapType type st = mapType type st'.
Proof. intros Heq. unfold mapType, mapType_console. by rewrite Heq. Qed.

Lemma fold_variableTypes (variables : list string) (st : Java) :
  fold_left
    (fun s key =>
       set_variableTypes_
         (<[key := mapType (dict_get key (blocklyTypes_ s)) s]>
            (variableTypes_ s)) s)
    variables st
  = set_variableTypes_
      (fold_left
         (fun m key => <[key := mapType (dict_get key (blocklyTypes_ st)) st]> m)
         variables (variableTypes_ st)) st.
Proof.
  revert st. induction variables as [|key variables IH]; intros st.
  - by destruct st.
  - cbn [fold_left]. rewrite IH. reflexivity.
Qed.


(** [init] records the mapped type of every variable of the workspace. *)
Lemma init_records_types (workspace : Root) (st : Java) (key : string) :
  key ∈ Variables_allVariables workspace
        ++ dict_keys (Variables_allVariablesTypes workspace) ->
  variableTypes_ (init workspace st) !! key
  = Some (mapType (dict_get key (Variables_allVariablesTypes workspace))
                  (init workspace st)).
Proof.
  intros Hkey. unfold init. rewrite fold_variableTypes.
  cbn [variableTypes_ set_variableTypes_].
  rewrite fold_insert_lookup by exact Hkey. reflexivity.
Qed.

(** The recorded type of a name that is not a variable of the workspace
    is the one of the state before. *)
Lemma init_keeps_other_types (workspace : Root) (st : Java) (key : string) :
  key ∉ Variables_allVariables workspace
        ++ dict_keys (Variables_allVariablesTypes workspace) ->
  variableTypes_ (init workspace st) !! key = variableTypes_ st !! key.
Proof.
  intros Hkey. unfold init. rewrite fold_variableTypes.
  cbn [variableTypes_ set_variableTypes_].
  rewrite fold_insert_lookup_other by exact Hkey.
  by rewrite addImports_set_imports.
Qed.

(** A variable of logical type [Boolean] is resolved to [boolean], for
    which [finish] has no default initializer. *)
Lemma init_Boolean_variable (workspace : Root) (st : Java) (key : string) :
  dict_get key (Variables_allVariablesTypes workspace) = Some "Boolean" ->
  GetVariableType key (init workspace st) = "boolean"
  /\ initializer_of None (GetVariableType key (init workspace st)) = "".
Proof.
  intros Htype.
  assert (GetVariableType key (init workspace st) = "boolean") as ->; [|done].
  unfold GetVariableType. rewrite init_records_types, Htype; [done|].
  apply elem_of_app. right.
  clear st. induction (Variables_allVariablesTypes workspace) as [|[k v] d IH];
    [done|].
  rewrite dict_keys_cons. cbn [dict_get] in Htype.
  destruct (decide (k = key)) as [->|]; [left|right; by apply IH].
Qed.


End initialisation.


(** ** The name registry *)

Lemma distinct_go_prefix (n : Names) (cand : string) (fuel i : nat) :
  exists suffix, distinct_go n cand fuel i = cand +:+ suffix.
Proof.
  revert i. induction fuel as [|fuel IH]; intros i; cbn [distinct_go].
  - eauto.
  - destruct (in_use n _); eauto.
Qed.

Lemma distinctName_prefix (n : Names) (cand : string) :
  exists suffix, distinctName n cand = cand +:+ suffix.
Proof.
  unfold distinctName. destruct (in_use n cand).
  - apply distinct_go_prefix.
  - exists "". by rewrite string_app_nil_r.
Qed.

(** The second name issued by a registry without bindings extends its
    own candidate, also when it is the first name again. *)
Lemma Names_getName_second (db0 db1 db2 : Names)
    (first second category e1 e2 : string) :
  db_ db0 = [] ->
  Names_getName first category db0 = (e1, db1) ->
  Names_getName second category db1 = (e2, db2) ->
  exists suffix, e2 = sanitize second +:+ suffix.
Proof.
  intros Hempty. unfold Names_getName at 1. rewrite Hempty.
  cbn [Names_lookup app]. intros [= <- <-].
  unfold Names_getName. cbn [db_ Names_lookup].
  destruct (decide ((first, category) = (second, category))) as [[= ->]|Hne].
  - intros [= <- _]. apply distinctName_prefix.
  - intros [= <- _]. apply distinctName_prefix.
Qed.

(** ** The assembled compilation unit *)

Lemma addImports_registers (libs : list string) (l : string) (st : Java) :
  l ∈ libs \/ dict_get (importStatement l) (imports_ st)
              = Some (importStatement l) ->
  dict_get (importStatement l) (imports_ (addImports libs st))
  = Some (importStatement l).
Proof.
  revert st. induction libs as [|l' libs IH]; intros st Hl.
  - destruct Hl as [Hl|Hl]; [set_solver|done].
  - rewrite addImports_cons. apply IH.
    rewrite imports_addImport, dict_get_set.
    destruct (decide (importStatement l' = importStatement l)) as [->|Hne].
    + by right.
    + destruct Hl as [Hl|Hl]; [|by right].
      apply elem_of_cons in Hl as [->|Hl]; [done|by left].
Qed.

Lemma withExtraImports_set_imports (st : Java) :
  withExtraImports st = set_imports_ (imports_ (withExtraImports st)) st.
Proof.
  unfold withExtraImports. destruct (ExtraImports_ st).
  - apply addImports_set_imports.
  - symmetry. apply set_imports_eta.
Qed.

Lemma withExtraImports_registers (l : string) (st : Java) :
  dict_get (importStatement l) (imports_ st) = Some (importStatement l) ->
  importStatement l ∈ importLines st.
Proof.
  intros Hl. unfold importLines. rewrite sort_elem.
  apply (dict_get_values (importStatement l)).
  unfold withExtraImports. destruct (ExtraImports_ st); [|done].
  apply addImports_registers. by right.
Qed.

Lemma bind_case {A B : Type} (m : M A) (f : A -> M B) (st : Java) :
  bind m f st
  = match m st with
    | Ret a st' => f a st'
    | Raise e st' => Raise e st'
    end.
Proof. reflexivity. Qed.

Lemma bind_ret {A B : Type} (a : A) (f : A -> M B) (st : Java) :
  bind (ret a) f st = f a st.
Proof. reflexivity. Qed.

Lemma bind_modify {B : Type} (g : Java -> Java) (f : unit -> M B) (st : Java) :
  bind (modify g) f st = f tt (g st).
Proof. reflexivity. Qed.

Lemma bind_get {B : Type} (f : Java -> M B) (st : Java) :
  bind get f st = f st st.
Proof. reflexivity. Qed.

Lemma bind_getImports {B : Type} (f : string -> M B) (st : Java) :
  bind getImports f st
  = f (Js.join Js.NL (importLines st)) (withExtraImports st).
Proof. reflexivity. Qed.

Lemma occurs_in_trans (needle middle text : string) :
  occurs_in needle middle -> occurs_in middle text -> occurs_in needle text.
Proof.
  intros (b & a & ->) (b' & a' & ->). exists (b' +:+ b), (a +:+ a').
  by rewrite !string_app_assoc.
Qed.

Lemma occurs_in_join (sep x : string) (l : list string) :
  x ∈ l -> occurs_in x (String.concat sep l).
Proof.
  induction l as [|y l IH]; [by intros ?%elem_of_nil|].
  intros [->|Hx]%elem_of_cons.
  - destruct l as [|z l]; [apply occurs_in_refl|].
    change (String.concat sep (y :: z :: l))
      with (y +:+ sep +:+ String.concat sep (z :: l)).
    apply occurs_in_left, occurs_in_refl.
  - destruct l as [|z l]; [by apply elem_of_nil in Hx|].
    change (String.concat sep (y :: z :: l))
      with (y +:+ sep +:+ String.concat sep (z :: l)).
    do 2 apply occurs_in_right. by apply IH.
Qed.

Lemma fixedImports_statements :
  importStatement <$> fixedImports
  = [ "import com.google.appinventor.components.runtime.AndroidNonvisibleComponent;";
      "import com.google.appinventor.components.runtime.ComponentContainer;";
      "import com.google.appinventor.components.annotations.SimpleObject;";
      "import com.google.appinventor.components.annotations.DesignerComponent;";
      "import com.google.appinventor.components.common.ComponentCategory;" ].
Proof. reflexivity. Qed.

Section assembler.
Context `{Collaborators}.

Lemma finish_resets_names (code text : string) (st st' : Java) :
  finish code st = Ret text st' ->
  exists db, variableDB_ st' = Some db /\ db_ db = [].
Proof.
  unfold finish. cbn [bind get]. rewrite bind_case.
  destruct (fieldDeclarations (for_in (globals_ st)) st) as [fields st1|]; [|done].
  cbn [bind modify ret]. rewrite bind_case. unfold variableDB_reset.
  cbn [variableDB_ set_functionNames_ set_definitions_].
  destruct (variableDB_ st1) as [db|]; [|done].
  intros [= _ <-]. by exists (Names_reset db).
Qed.

Lemma workspaceToCode__resets_names (workspace : Root) (parms : Parms)
    (text : string) (st st' : Java) :
  workspaceToCode_ workspace parms st = Ret text st' ->
  exists db, variableDB_ st' = Some db /\ db_ db = [].
Proof.
  unfold workspaceToCode_. cbn [bind modify]. rewrite bind_case.
  destruct (emitTopBlocks workspace parms _) as [code st1|]; [|done].
  apply finish_resets_names.
Qed.

(** C10: a run of [workspaceToCode] that returns leaves the base class
    set to [AndroidNonvisibleComponent], whatever base class the state
    held before; the returned text declares the class as extending
    [AndroidNonvisibleComponent], and contains the lines of a sorted
    import list, joined by line feeds, among which are the import
    statements of the five fixed libraries. *)
Theorem C10_fixed_base_class_and_imports
    (workspace : Root) (parms : Parms) (st st' : Java) (finalcode : string) :
  workspaceToCode workspace parms st = Ret finalcode st' ->
  Baseclass_ st' = "AndroidNonvisibleComponent"
  /\ (exists appName,
        occurs_in ("public class " +:+ appName
                   +:+ " extends AndroidNonvisibleComponent") finalcode)
  /\ (exists lines,
        occurs_in (String.concat Js.NL lines) finalcode
        /\ Sorted String.le lines
        /\ forall line,
             line ∈ [ "import com.google.appinventor.components.runtime.AndroidNonvisibleComponent;";
                      "import com.google.appinventor.components.runtime.ComponentContainer;";
                      "import com.google.appinventor.components.annotations.SimpleObject;";
                      "import com.google.appinventor.components.annotations.DesignerComponent;";
                      "import com.google.appinventor.components.common.ComponentCategory;" ] ->
             line ∈ lines /\ occurs_in line finalcode).
Proof.
  unfold workspaceToCode. destruct (options workspace) as [o|]; [|done].
  rewrite bind_ret, bind_modify, bind_case.
  destruct (forceUpdate workspace _) as [[] st1|]; [|done].
  rewrite bind_case.
  destruct (workspaceToCode_ workspace parms st1) as [code st2|] eqn:Hgen;
    [|done].
  destruct (workspaceToCode__resets_names _ _ _ _ _ Hgen) as (db0 & Hdb0 & Hempty).
  rewrite !bind_modify, bind_get, bind_getImports, bind_get.
  remember (setBaseclass "AndroidNonvisibleComponent"
              (addImports fixedImports st2)) as s3 eqn:Hs3.
  assert (variableDB_ (withExtraImports s3) = Some db0) as Hdb4.
  { rewrite withExtraImports_set_imports, Hs3, addImports_set_imports. exact Hdb0. }
  assert (Baseclass_ (withExtraImports s3) = "AndroidNonvisibleComponent")
    as Hbase4.
  { rewrite withExtraImports_set_imports, Hs3. reflexivity. }
  remember (withExtraImports s3) as s4 eqn:Hs4.
  rewrite bind_case. unfold getAppName at 1. rewrite bind_get.
  unfold variableDB_getName at 1. rewrite Hdb4.
  destruct (Names_getName (AppName_ s4) "CLASS" db0) as [appName db1] eqn:Happ.
  rewrite bind_case. unfold getBaseclass. rewrite bind_get.
  cbn [Baseclass_ set_variableDB_]. rewrite Hbase4, decide_False by done.
  unfold variableDB_getName at 1. cbn [variableDB_ set_variableDB_].
  destruct (Names_getName "AndroidNonvisibleComponent" "CLASS" db1)
    as [baseClass db2] eqn:Hbase.
  destruct (Names_getName_second _ _ _ _ _ _ _ _ Hempty Happ Hbase)
    as [suffix ->].
  rewrite bind_get, bind_case. unfold getAppName. rewrite bind_get.
  unfold variableDB_getName. cbn [variableDB_ set_variableDB_ AppName_].
  destruct (Names_getName (AppName_ s4) "CLASS" db2) as [constructorName db3].
  rewrite bind_get. cbn [ret]. intros Hret. injection Hret as <- <-.
  split_and!.
  - exact Hbase4.
  - exists appName. apply occurs_in_left, occurs_in_right.
    unfold classDeclaration. rewrite decide_False by done.
    change (sanitize "AndroidNonvisibleComponent")
      with "AndroidNonvisibleComponent".
    exists "", (suffix +:+ implementsClause
                  (getInterfaces
                     (set_variableDB_ (Some db2)
                        (set_variableDB_ (Some db1) s4)))).
    rewrite string_app_nil_l, !string_app_assoc. reflexivity.
  - assert (occurs_in (String.concat Js.NL (importLines s3))
              (String_replace
                 (String_replace fileHeader "<<Your Name>>" (name s3))
                 "<<Year>>" (year s3)
               +:+ "package " +:+ Package_ s4 +:+ ";" +:+ Js.NL +:+ Js.NL
               +:+ Js.join Js.NL (importLines s3) +:+ Js.NL
               +:+ annotations s4)) as Hjoined.
    { do 6 apply occurs_in_right. apply occurs_in_left, occurs_in_refl. }
    assert (forall line, line ∈ importStatement <$> fixedImports ->
              line ∈ importLines s3) as Hfixed.
    { intros line (lib & -> & Hlib)%list_elem_of_fmap.
      apply withExtraImports_registers.
      rewrite Hs3. change (imports_ (setBaseclass ?b ?s)) with (imports_ s).
      apply addImports_registers. by left. }
    exists (importLines s3). split_and!.
    + by apply occurs_in_left, occurs_in_left.
    + apply sort_Sorted.
    + intros line Hline. rewrite <- fixedImports_statements in Hline.
      split; [by apply Hfixed|].
      apply occurs_in_left, occurs_in_left.
      eapply occurs_in_trans; [|exact Hjoined].
      by apply occurs_in_join, Hfixed.
Qed.

End assembler.

Lemma C10_fixed_base_class_and_imports_witness :
  Baseclass_ (final_state (workspaceToCode sampleWorkspace tt stateWithBaseclass))
  = "AndroidNonvisibleComponent"
  /\ (exists appName,
        occurs_in ("public class " +:+ appName
                   +:+ " extends AndroidNonvisibleComponent")
          (default ""
             (result (workspaceToCode sampleWorkspace tt stateWithBaseclass))))
  /\ (exists lines,
        occurs_in (String.concat Js.NL lines)
          (default ""
             (result (workspaceToCode sampleWorkspace tt stateWithBaseclass)))
        /\ Sorted String.le lines
        /\ forall line,
             line ∈ [ "import com.google.appinventor.components.runtime.AndroidNonvisibleComponent;";
                      "import com.google.appinventor.components.runtime.ComponentContainer;";
                      "import com.google.appinventor.components.annotations.SimpleObject;";
                      "import com.google.appinventor.components.annotations.DesignerComponent;";
                      "import com.google.appinventor.components.common.ComponentCategory;" ] ->
             line ∈ lines
             /\ occurs_in line
                  (default ""
                     (result
                        (workspaceToCode sampleWorkspace tt stateWithBaseclass)))).
Proof.
  refine (@C10_fixed_base_class_and_imports sampleCollaborators
            sampleWorkspace tt stateWithBaseclass
            (final_state (workspaceToCode sampleWorkspace tt stateWithBaseclass))
            (default ""
               (result (workspaceToCode sampleWorkspace tt stateWithBaseclass)))
            _).
  vm_compute. reflexivity.
Defined.

(** * Further properties of the generator *)

(** ** Nested types *)

Lemma concat_replicate_comm (n : nat) (x : string) :
  String.concat "" (replicate n x) +:+ x = x +:+ String.concat "" (replicate n x).
Proof.
  induction n as [|n IH]; cbn [replicate].
  - by rewrite string_app_nil_r.
  - by rewrite !concat_empty_cons, string_app_assoc, IH.
Qed.

Section nested_types.
Context `{Collaborators}.

Lemma mapType__nested (equivalence : gmap string (list string))
    (mapping : dict string) (key key' : string) (rest : list string) :
  mapType_ equivalence mapping (key :: key' :: rest)
  = let (type, log) := mapToken equivalence mapping key in
    let (subType, log') :=
      mapType_ equivalence subtypeMapping (key' :: rest) in
    (type +:+ "<" +:+ subType +:+ ">", log ++ log').
Proof. reflexivity. Qed.

Lemma mapType__chain (equivalence : gmap string (list string))
    (mapping : dict string) (key : string) (rest : list string) :
  (mapType_ equivalence mapping (key :: rest)).1
  = (mapToken equivalence mapping key).1
    +:+ String.concat ""
          ((fun token => "<" +:+ (mapToken equivalence subtypeMapping token).1)
             <$> rest)
    +:+ String.concat "" (replicate (length rest) ">").
Proof.
  revert mapping key. induction rest as [|key' rest IH]; intros mapping key.
  - cbn [mapType_]. destruct (mapToken equivalence mapping key) as [type log].
    cbn. by rewrite string_app_nil_r.
  - rewrite mapType__nested. specialize (IH subtypeMapping key').
    destruct (mapToken equivalence mapping key) as [type log].
    destruct (mapType_ equivalence subtypeMapping (key' :: rest))
      as [subType log'].
    cbn [fst] in *. rewrite IH. cbn [length replicate].
    rewrite fmap_cons, !concat_empty_cons, !string_app_assoc.
    do 4 f_equal. apply concat_replicate_comm.
Qed.

(** X1: a colon-separated logical type is mapped token by token, the
    first token with [typeMapping] and every later one with
    [subtypeMapping], each later token opening a generic parameter that
    is closed at the end. *)
Theorem X1_mapType_nests_generic_parameters
    (type key : string) (rest : list string) (st : Java) :
  type <> "" ->
  Js.split ":" type = key :: rest ->
  mapType (Some type) st
  = (mapToken (VariableTypeEquivalence st) typeMapping key).1
    +:+ String.concat ""
          ((fun token =>
              "<" +:+ (mapToken (VariableTypeEquivalence st)
                                subtypeMapping token).1) <$> rest)
    +:+ String.concat "" (replicate (length rest) ">").
Proof.
  intros Htype Hsplit. unfold mapType, mapType_console.
  cbn [Js.truthy_opt from_option id]. unfold Js.truthy.
  rewrite bool_decide_eq_false_2 by done. cbn [negb].
  rewrite Hsplit. apply mapType__chain.
Qed.

(** X2: a token is mapped alike at the top level and as a generic
    parameter, unless it is [Number], which is [double] at the top
    level and [Double] as a parameter. *)
Theorem X2_only_Number_differs_when_nested
    (equivalence : gmap string (list string)) (key : string) :
  key <> "Number" ->
  mapToken equivalence typeMapping key
  = mapToken equivalence subtypeMapping key
  /\ mapToken equivalence typeMapping "Number" = ("double", [])
  /\ mapToken equivalence subtypeMapping "Number" = ("Double", []).
Proof.
  intros Hkey. split_and!; [|reflexivity..]. unfold mapToken.
  assert (dict_get key typeMapping = dict_get key subtypeMapping) as ->; [|done].
  unfold typeMapping, subtypeMapping. cbn [dict_get].
  repeat (destruct (decide (_ = key)) as [?|?]; [done|]). done.
Qed.

End nested_types.

Lemma X1_mapType_nests_generic_parameters_witness :
  mapType (Some "Array:Number:Widget") initialJava
  = "YailList" +:+ String.concat "" ["<Double"; "<Object"]
    +:+ String.concat "" [">"; ">"].
Proof.
  rewrite (@X1_mapType_nests_generic_parameters sampleCollaborators
             "Array:Number:Widget" "Array" ["Number"; "Widget"] initialJava).
  - reflexivity.
  - discriminate.
  - reflexivity.
Defined.

Lemma X2_only_Number_differs_when_nested_witness :
  mapToken ∅ typeMapping "Boolean" = mapToken ∅ subtypeMapping "Boolean".
Proof.
  apply (@X2_only_Number_differs_when_nested sampleCollaborators ∅ "Boolean").
  discriminate.
Defined.

(** ** Variable types after [init] *)

Section resolved_types.
Context `{Collaborators}.


(** X4: [init] does not forget the type recorded for a name that is not
    a variable of the new workspace: [GetVariableType] still returns
    what it returned before. *)
Theorem X4_init_keeps_types_of_other_names
    (workspace : Root) (st : Java) (key : string) :
  key ∉ Variables_allVariables workspace
        ++ dict_keys (Variables_allVariablesTypes workspace) ->
  GetVariableType key (init workspace st) = GetVariableType key st.
Proof.
  intros Hkey. unfold GetVariableType. by rewrite init_keeps_other_types.
Qed.

End resolved_types.


Lemma X4_init_keeps_types_of_other_names_witness :
  GetVariableType "old"
    (init sampleWorkspace (set_variableTypes_ {[ "old" := "double" ]} initialJava))
  = GetVariableType "old" (set_variableTypes_ {[ "old" := "double" ]} initialJava).
Proof.
  apply (@X4_init_keeps_types_of_other_names sampleCollaborators).
  vm_compute. set_solver.
Defined.

(** ** Global variables, interfaces and extra classes *)

Section registries.
Context `{Collaborators}.

Lemma setGlobalVar_keeps_initializer (block : Block) (varName : string)
    (val : option string) (st : Java) (other value : string) :
  dict_get other (globals_ st) = Some (Some value) ->
  dict_get other (globals_ (setGlobalVar block varName val st))
  = Some (Some value).
Proof.
  intros Hother. unfold setGlobalVar.
  destruct (negb _ && bool_decide _) eqn:Hguard; [|done].
  apply andb_true_iff in Hguard as [_ Hnull%bool_decide_eq_true].
  cbn [globals_ set_globals_]. rewrite dict_get_set.
  destruct (decide (varName = other)) as [->|]; [|done].
  by rewrite Hother in Hnull.
Qed.

(** X5: the first initializer that is not null stays: no later call of
    [setGlobalVar], for this or another name, changes it; a variable
    with a local context is never recorded. *)
Theorem X5_setGlobalVar_first_initializer_wins
    (calls : list (Block * string * option string)) (st : Java)
    (varName value : string) :
  dict_get varName (globals_ st) = Some (Some value) ->
  dict_get varName
    (globals_
       (fold_left (fun s call => setGlobalVar call.1.1 call.1.2 call.2 s)
                  calls st))
  = Some (Some value)
  /\ (forall block other val s,
        Variables_getLocalContext block other = true ->
        setGlobalVar block other val s = s).
Proof.
  intros Hvalue. split.
  - revert st Hvalue. induction calls as [|call calls IH]; intros st Hvalue.
    + done.
    + cbn [fold_left]. apply IH. by apply setGlobalVar_keeps_initializer.
  - intros block other val s Hlocal. unfold setGlobalVar. by rewrite Hlocal.
Qed.

Lemma addInterface_elem (iface x : string) (st : Java) :
  x ∈ Interfaces_ (addInterface iface st) <-> x ∈ Interfaces_ st \/ x = iface.
Proof.
  unfold addInterface, Js.contains. case_bool_decide as Hin.
  - split; [by left|]. by intros [?| ->].
  - cbn [Interfaces_ set_Interfaces_]. rewrite elem_of_app.
    by rewrite list_elem_of_singleton.
Qed.

Lemma addInterface_NoDup (iface : string) (st : Java) :
  NoDup (Interfaces_ st) -> NoDup (Interfaces_ (addInterface iface st)).
Proof.
  intros Hnd. unfold addInterface, Js.contains. case_bool_decide as Hin; [done|].
  cbn [Interfaces_ set_Interfaces_]. apply NoDup_app. split_and!; [done| |].
  - by intros x Hx ->%list_elem_of_singleton.
  - apply NoDup_singleton.
Qed.

Lemma addInterface_prefix (iface : string) (st : Java) :
  Interfaces_ st `prefix_of` Interfaces_ (addInterface iface st).
Proof.
  unfold addInterface, Js.contains. case_bool_decide; [done|].
  cbn [Interfaces_ set_Interfaces_]. by apply prefix_app_r.
Qed.

(** X6: the interface list stays free of duplicates under
    [addInterface]; it holds the interfaces it held and the added ones,
    the earlier ones first; [getInterfaces] is null exactly when there
    is none. *)
Theorem X6_addInterface_keeps_list_duplicate_free
    (ifaces : list string) (st : Java) :
  NoDup (Interfaces_ st) ->
  NoDup (Interfaces_ (fold_left (fun s i => addInterface i s) ifaces st))
  /\ (forall x,
        x ∈ Interfaces_ (fold_left (fun s i => addInterface i s) ifaces st)
        <-> x ∈ Interfaces_ st \/ x ∈ ifaces)
  /\ Interfaces_ st
     `prefix_of` Interfaces_ (fold_left (fun s i => addInterface i s) ifaces st)
  /\ (getInterfaces (fold_left (fun s i => addInterface i s) ifaces st) = None
      <-> Interfaces_ st = [] /\ ifaces = []).
Proof.
  revert st. induction ifaces as [|iface ifaces IH]; intros st Hnd.
  - cbn [fold_left]. split_and!; [done|set_solver|done|].
    unfold getInterfaces. destruct (Interfaces_ st); cbn; naive_solver.
  - cbn [fold_left].
    destruct (IH (addInterface iface st) (addInterface_NoDup _ _ Hnd))
      as (IH1 & IH2 & IH3 & IH4).
    split_and!.
    + done.
    + intros x. rewrite IH2, addInterface_elem. set_solver.
    + etrans; [apply addInterface_prefix|done].
    + rewrite IH4. split; [|by intros [_ [=]]].
      intros [Hempty _]. exfalso.
      assert (iface ∈ Interfaces_ (addInterface iface st)) as Hin
        by (apply addInterface_elem; by right).
      rewrite Hempty in Hin. set_solver.
Qed.

End registries.

Lemma X5_setGlobalVar_first_initializer_wins_witness :
  dict_get "count"
    (globals_
       (fold_left (fun s call => setGlobalVar call.1.1 call.1.2 call.2 s)
          [ (leafBlock "variables_set" None None, "count", Some "2");
            (leafBlock "variables_set" None None, "total", None) ]
          (setGlobalVar (leafBlock "variables_set" None None) "count"
             (Some "1") initialJava)))
  = Some (Some "1").
Proof.
  apply (@X5_setGlobalVar_first_initializer_wins sampleCollaborators).
  reflexivity.
Defined.

Lemma X6_addInterface_keeps_list_duplicate_free_witness :
  NoDup
    (Interfaces_
       (fold_left (fun s i => addInterface i s)
          ["Runnable"; "Closeable"; "Runnable"] initialJava)).
Proof.
  apply (X6_addInterface_keeps_list_duplicate_free
           ["Runnable"; "Closeable"; "Runnable"] initialJava).
  constructor.
Defined.

(** ** The clause of implemented interfaces and the extra classes *)

Lemma implements_fold (l : list string) (text : string) :
  (fold_left (fun acc iface => (acc.1 +:+ acc.2 +:+ iface, ", "))
             l (text, ", ")).1
  = text +:+ String.concat "" ((fun iface => ", " +:+ iface) <$> l).
Proof.
  revert text. induction l as [|i l IH]; intros text.
  - cbn. by rewrite string_app_nil_r.
  - cbn [fold_left fst snd]. rewrite IH, fmap_cons, concat_empty_cons.
    by rewrite !string_app_assoc.
Qed.

Lemma join_comma (iface : string) (l : list string) :
  Js.join ", " (iface :: l)
  = iface +:+ String.concat "" ((fun i => ", " +:+ i) <$> l).
Proof.
  unfold Js.join. revert iface. induction l as [|i l IH]; intros iface.
  - cbn. by rewrite string_app_nil_r.
  - change (String.concat ", " (iface :: i :: l))
      with (iface +:+ ", " +:+ String.concat ", " (i :: l)).
    rewrite IH, fmap_cons, concat_empty_cons.
    by rewrite !string_app_assoc.
Qed.

(** X7: the loop that renders the implemented interfaces yields
    [ implements ] followed by the interfaces separated by comma and
    space, and nothing when there is no interface. *)
Theorem X7_implementsClause_joins_interfaces (st : Java) :
  implementsClause (getInterfaces st)
  = match Interfaces_ st with
    | [] => ""
    | _ :: _ => " implements " +:+ Js.join ", " (Interfaces_ st)
    end.
Proof.
  unfold getInterfaces. destruct (Interfaces_ st) as [|iface l]; [done|].
  cbn [length]. rewrite decide_False by done. unfold implementsClause.
  cbn [fold_left fst snd]. rewrite implements_fold, join_comma.
  by rewrite string_app_nil_l, !string_app_assoc.
Qed.


Lemma dict_set_same {V : Type} (k : string) (v : V) (d : dict V) :
  dict_get k d = Some v -> dict_set k v d = d.
Proof.
  induction d as [|[k' v'] d IH]; cbn [dict_get dict_set]; [done|].
  destruct (decide (k' = k)) as [->|Hne].
  - by intros [= ->].
  - intros Hget. by rewrite IH.
Qed.


Section extra_classes.
Context `{Collaborators}.



End extra_classes.

(** ** Repeated calls of [getImports] *)

Lemma addImports_registered (libs : list string) (st : Java) :
  (forall l, l ∈ libs ->
     dict_get (importStatement l) (imports_ st) = Some (importStatement l)) ->
  addImports libs st = st.
Proof.
  induction libs as [|l libs IH]; intros Hreg; [done|].
  rewrite addImports_cons.
  assert (addImport l st = st) as ->.
  { unfold addImport. rewrite dict_set_same by (apply Hreg; set_solver).
    apply set_imports_eta. }
  apply IH. intros l' Hl'. apply Hreg. set_solver.
Qed.

Lemma withExtraImports_idem (st : Java) :
  withExtraImports (withExtraImports st) = withExtraImports st.
Proof.
  destruct (ExtraImports_ st) as [extra|] eqn:Hextra.
  - assert (withExtraImports st = addImports extra st) as ->.
    { unfold withExtraImports. by rewrite Hextra. }
    unfold withExtraImports. rewrite ExtraImports_addImports, Hextra.
    apply addImports_registered. intros l Hl.
    apply addImports_registers. by left.
  - assert (withExtraImports st = st) as ->.
    { unfold withExtraImports. by rewrite Hextra. }
    unfold withExtraImports. by rewrite Hextra.
Qed.

(** X9: [getImports] registers the extra imports in the import
    dictionary; a second call returns the same text and changes
    nothing more. *)
Theorem X9_getImports_is_repeatable (st : Java) :
  final_state (getImports st) = withExtraImports st
  /\ result (getImports (final_state (getImports st)))
     = result (getImports st)
  /\ final_state (getImports (final_state (getImports st)))
     = final_state (getImports st)
  /\ (forall extra l, ExtraImports_ st = Some extra -> l ∈ extra ->
        dict_get (importStatement l) (imports_ (final_state (getImports st)))
        = Some (importStatement l)).
Proof.
  cbn [getImports final_state result]. split_and!.
  - done.
  - unfold importLines. by rewrite !withExtraImports_idem.
  - apply withExtraImports_idem.
  - intros extra l Hextra Hl. unfold withExtraImports. rewrite Hextra.
    apply addImports_registers. by left.
Qed.

(** ** The settle pass *)

Lemma call_onchange_app (before after : list Block) (st : Java) :
  call_onchange (before ++ after) st
  = match call_onchange before st with
    | Ret _ st1 => call_onchange after st1
    | Raise e st1 => Raise e st1
    end.
Proof.
  revert st. induction before as [|b before IH]; intros st; [done|].
  cbn [app call_onchange]. rewrite !bind_case.
  destruct (match onchange b with Some f => f | None => ret tt end st)
    as [[] st1|e st1]; [apply IH|done].
Qed.

Lemma call_onchange_no_handler (blocks : list Block) (st : Java) :
  Forall (fun b => onchange b = None) blocks ->
  call_onchange blocks st = Ret tt st.
Proof.
  induction 1 as [|b blocks Hb _ IH]; [done|].
  cbn [call_onchange]. rewrite Hb, bind_ret. apply IH.
Qed.

(** X10: for a root that exposes [getDescendants], [forceUpdate] runs
    the [onchange] handlers of these blocks in order and stops at the
    first one that throws, whatever [getAllBlocks] holds; when no block
    has a handler it returns and leaves the generator as it was. *)
Theorem X10_forceUpdate_runs_handlers_in_order
    (root : Root) (before after : list Block) (st : Java) :
  getDescendants root = Some (before ++ after) ->
  forceUpdate root st
  = match call_onchange before st with
    | Ret _ st1 => call_onchange after st1
    | Raise e st1 => Raise e st1
    end
  /\ (Forall (fun b => onchange b = None) (before ++ after) ->
      forceUpdate root st = Ret tt st).
Proof.
  intros Hroot. unfold forceUpdate. rewrite Hroot. split.
  - apply call_onchange_app.
  - apply call_onchange_no_handler.
Qed.

Lemma X10_forceUpdate_runs_handlers_in_order_witness :
  forceUpdate
    (mkRoot None
       (Some ([leafBlock "a" None None]
              ++ [mkBlock "b" None None [] None
                    (Some (raise (Thrown "stop")))]))
       None "block")
    initialJava
  = Raise (Thrown "stop") initialJava.
Proof.
  apply (X10_forceUpdate_runs_handlers_in_order
           (mkRoot None
              (Some ([leafBlock "a" None None]
                     ++ [mkBlock "b" None None [] None
                           (Some (raise (Thrown "stop")))]))
              None "block")
           [leafBlock "a" None None]
           [mkBlock "b" None None [] None (Some (raise (Thrown "stop")))]
           initialJava).
  reflexivity.
Defined.

(** ** The text and the effects of [finish] *)

Lemma collapse_blank_go_leading (run : nat) (s : string) :
  (leading_line_feeds (Js.collapse_blank_go run s) + Nat.min run 2 <= 2)%nat.
Proof.
  revert run. induction s as [|a s IH]; intros run.
  - cbn [Js.collapse_blank_go leading_line_feeds]. lia.
  - cbn [Js.collapse_blank_go].
    destruct (decide (a = "010"%char)) as [->|Hne].
    + destruct run as [|[|run]].
      * cbn [leading_line_feeds]. rewrite decide_True by done.
        specialize (IH 1%nat). lia.
      * cbn [leading_line_feeds]. rewrite decide_True by done.
        specialize (IH 2%nat). lia.
      * specialize (IH (S (S run))). lia.
    + cbn [leading_line_feeds]. rewrite decide_False by done. lia.
Qed.

Lemma collapse_blank_go_no_blank_run (run : nat) (s before after : string) :
  Js.collapse_blank_go run s <> before +:+ two_blank_lines +:+ after.
Proof.
  revert run before. induction s as [|a s IH]; intros run before Heq.
  - cbn in Heq. by destruct before.
  - destruct before as [|c before].
    + pose proof (collapse_blank_go_leading run (String a s)) as Hlead.
      rewrite Heq in Hlead. vm_compute in Hlead. lia.
    + cbn [Js.collapse_blank_go] in Heq.
      destruct (decide (a = "010"%char)) as [->|Hne].
      * destruct run as [|[|run]].
        -- rewrite string_app_cons in Heq. injection Heq as _ Heq.
           by apply IH in Heq.
        -- rewrite string_app_cons in Heq. injection Heq as _ Heq.
           by apply IH in Heq.
        -- by apply IH in Heq.
      * rewrite string_app_cons in Heq. injection Heq as _ Heq.
        by apply IH in Heq.
Qed.

Lemma collapse_blank_go_idem (run : nat) (s : string) :
  Js.collapse_blank_go run (Js.collapse_blank_go run s)
  = Js.collapse_blank_go run s.
Proof.
  revert run. induction s as [|a s IH]; intros run; [done|].
  cbn [Js.collapse_blank_go].
  destruct (decide (a = "010"%char)) as [->|Hne].
  - destruct run as [|[|run]].
    + cbn [Js.collapse_blank_go]. rewrite decide_True by done. by rewrite IH.
    + cbn [Js.collapse_blank_go]. rewrite decide_True by done. by rewrite IH.
    + apply IH.
  - cbn [Js.collapse_blank_go]. rewrite decide_False by done. by rewrite IH.
Qed.

(** X11: the first clean-up of [finish] leaves no run of three line
    feeds, so never more than one blank line in a row, and applying it
    again changes nothing. *)
Theorem X11_collapse_blank_leaves_single_blank_lines (s : string) :
  ~ occurs_in two_blank_lines (Js.collapse_blank s)
  /\ Js.collapse_blank (Js.collapse_blank s) = Js.collapse_blank s.
Proof.
  split.
  - intros (before & after & Heq).
    by apply collapse_blank_go_no_blank_run in Heq.
  - apply collapse_blank_go_idem.
Qed.

Lemma rev_app_spec (s acc : string) :
  String.rev_app s acc = String.rev_app s "" +:+ acc.
Proof.
  revert acc. induction s as [|a s IH]; intros acc; [done|].
  cbn [String.rev_app]. rewrite IH, (IH (String a "")).
  by rewrite string_app_assoc.
Qed.

Lemma rev_cons (a : ascii) (s : string) :
  String.rev (String a s) = String.rev s +:+ String a "".
Proof. unfold String.rev. cbn [String.rev_app]. apply rev_app_spec. Qed.

Lemma rev_app_string (s t : string) :
  String.rev (s +:+ t) = String.rev t +:+ String.rev s.
Proof.
  induction s as [|a s IH].
  - by rewrite string_app_nil_l, string_app_nil_r.
  - by rewrite string_app_cons, !rev_cons, IH, string_app_assoc.
Qed.

Lemma rev_involutive (s : string) : String.rev (String.rev s) = s.
Proof.
  induction s as [|a s IH]; [done|].
  by rewrite rev_cons, rev_app_string, IH.
Qed.

Lemma drop_line_feeds_split (s : string) :
  exists n, s = line_feeds n +:+ Js.drop_line_feeds s.
Proof.
  induction s as [|a s [n IH]]; [by exists 0%nat|].
  cbn [Js.drop_line_feeds]. destruct (decide (a = "010"%char)) as [->|Hne].
  - exists (S n). cbn [line_feeds]. by rewrite string_app_cons, <- IH.
  - by exists 0%nat.
Qed.

Lemma line_feeds_snoc (n : nat) :
  line_feeds n +:+ Js.NL = line_feeds (S n).
Proof.
  induction n as [|n IH]; [done|].
  cbn [line_feeds] in *. by rewrite string_app_cons, IH.
Qed.

Lemma rev_line_feeds (n : nat) : String.rev (line_feeds n) = line_feeds n.
Proof.
  induction n as [|n IH]; [done|].
  cbn [line_feeds]. rewrite rev_cons, IH. apply line_feeds_snoc.
Qed.

Lemma drop_line_feeds_head (s t : string) :
  Js.drop_line_feeds s <> Js.NL +:+ t.
Proof.
  induction s as [|a s IH]; [done|]. cbn [Js.drop_line_feeds].
  destruct (decide (a = "010"%char)) as [->|Hne]; [done|].
  intros [= -> _]. done.
Qed.

(** The second clean-up: what is left before the three line feeds is a
    prefix of the text and does not end in a line feed. *)
Lemma end_with_three_line_feeds_spec (s : string) :
  exists kept n,
    Js.end_with_three_line_feeds s = kept +:+ two_blank_lines
    /\ s = kept +:+ line_feeds n
    /\ forall t, kept <> t +:+ Js.NL.
Proof.
  destruct (drop_line_feeds_split (String.rev s)) as [n Hfeeds].
  exists (String.rev (Js.drop_line_feeds (String.rev s))), n.
  split_and!.
  - reflexivity.
  - rewrite <- (rev_line_feeds n).
    by rewrite <- rev_app_string, <- Hfeeds, rev_involutive.
  - intros t Heq. apply (f_equal String.rev) in Heq.
    rewrite rev_involutive, rev_app_string in Heq.
    by apply drop_line_feeds_head in Heq.
Qed.

Section finish_effects.
Context `{Collaborators}.

Lemma fieldDeclarations_returns (globals : dict (option string))
    (st : Java) (db : Names) :
  variableDB_ st = Some db ->
  exists text db',
    fieldDeclarations globals st = Ret text (set_variableDB_ (Some db') st)
    /\ reservedWords db' = reservedWords db.
Proof.
  revert st db. induction globals as [|[def value] globals IH]; intros st db Hdb.
  - exists "", db. split; [|done]. cbn [fieldDeclarations ret].
    f_equal. destruct st. cbn in *. by subst.
  - cbn [fieldDeclarations]. rewrite bind_get, bind_case.
    unfold variableDB_getName. rewrite Hdb.
    destruct (Names_getName def Variables_NAME_TYPE db) as [varname db1] eqn:Hname.
    assert (reservedWords db1 = reservedWords db) as Hwords.
    { unfold Names_getName in Hname. destruct (Names_lookup _ _).
      - by injection Hname as _ <-.
      - by injection Hname as _ <-. }
    rewrite bind_case.
    destruct (IH (set_variableDB_ (Some db1) st) db1 eq_refl)
      as (rest & db' & -> & Hwords').
    exists ("protected " +:+ GetVariableType def st +:+ " " +:+ varname
            +:+ initializer_of value (GetVariableType def st)
            +:+ ";" +:+ Js.NL +:+ rest), db'.
    split; [reflexivity|congruence].
Qed.

Lemma fieldDeclarations_raises (globals : dict (option string)) (st : Java) :
  variableDB_ st = None -> globals <> [] ->
  fieldDeclarations globals st
  = Raise (TypeError "variableDB_ is undefined") st.
Proof.
  intros Hdb Hne. destruct globals as [|[def value] globals]; [done|].
  cbn [fieldDeclarations]. rewrite bind_get, bind_case.
  unfold variableDB_getName. by rewrite Hdb.
Qed.

Lemma finish_raises_without_names (code : string) (st : Java) :
  variableDB_ st = None ->
  exists st', finish code st
              = Raise (TypeError "variableDB_ is undefined") st'.
Proof.
  intros Hdb. unfold finish. rewrite bind_get, bind_case.
  destruct (for_in (globals_ st)) as [|g globals] eqn:Hglobals.
  - cbn [fieldDeclarations ret]. rewrite !bind_modify, bind_case.
    unfold variableDB_reset. cbn [variableDB_ set_functionNames_ set_definitions_].
    rewrite Hdb. eauto.
  - rewrite fieldDeclarations_raises by done. eauto.
Qed.

(** X12: [finish] throws a [TypeError] when the name database was never
    created; otherwise it returns, and afterwards the definitions and
    function names are deleted and the name database is reset, while
    the globals, imports, classes and every other property are as
    before. *)
Theorem X12_finish_returns_when_names_exist (code : string) (st : Java) :
  (variableDB_ st = None ->
   exists st', finish code st
               = Raise (TypeError "variableDB_ is undefined") st')
  /\ (forall db, variableDB_ st = Some db ->
        exists text,
          finish code st
          = Ret text
              (set_variableDB_ (Some (Names_reset db))
                 (set_functionNames_ None (set_definitions_ None st)))).
Proof.
  split.
  - apply finish_raises_without_names.
  - intros db Hdb. unfold finish. rewrite bind_get, bind_case.
    destruct (fieldDeclarations_returns (for_in (globals_ st)) st db Hdb)
      as (fields & db' & -> & Hwords).
    rewrite !bind_modify, bind_case. unfold variableDB_reset.
    cbn [variableDB_ set_functionNames_ set_definitions_ set_variableDB_].
    eexists. cbn [ret]. f_equal. unfold Names_reset. by rewrite Hwords.
Qed.

(** X13: the text that [finish] returns is the text of the fields
    of the globals followed by the helper definitions, with every run
    of blank lines reduced to one and the line feeds at its end
    removed, then three line feeds, then the code; with no global and
    no definition it is three line feeds and the code. *)
Theorem X13_finish_puts_three_line_feeds_before_code
    (code text : string) (st : Java) :
  result (finish code st) = Some text ->
  (exists fields kept n,
     result (fieldDeclarations (for_in (globals_ st)) st) = Some fields
     /\ Js.collapse_blank
          (fields +:+ functionDefinitions (default [] (definitions_ st)))
        = kept +:+ line_feeds n
     /\ (forall t, kept <> t +:+ Js.NL)
     /\ ~ occurs_in two_blank_lines kept
     /\ text = kept +:+ two_blank_lines +:+ code)
  /\ (globals_ st = [] -> default [] (definitions_ st) = [] ->
      text = two_blank_lines +:+ code).
Proof.
  destruct (variableDB_ st) as [db|] eqn:Hdb.
  2:{ destruct (finish_raises_without_names code st Hdb) as [st' ->]. done. }
  unfold finish. rewrite bind_get, bind_case.
  destruct (fieldDeclarations_returns (for_in (globals_ st)) st db Hdb)
    as (fields & db' & Hfields & Hwords).
  rewrite Hfields, !bind_modify, bind_case. unfold variableDB_reset.
  cbn [variableDB_ set_functionNames_ set_definitions_ set_variableDB_ ret result].
  intros [= <-]. split.
  - destruct (end_with_three_line_feeds_spec
                (Js.collapse_blank
                   (fields +:+ functionDefinitions (default [] (definitions_ st)))))
      as (kept & n & -> & Hkept & Hend).
    exists fields, kept, n.
    split_and!; [done|done|done| |by rewrite !string_app_assoc].
    intros (before & after & Hocc). rewrite Hocc in Hkept.
    rewrite !string_app_assoc in Hkept.
    by apply collapse_blank_go_no_blank_run in Hkept.
  - intros Hglobals Hdefs. rewrite Hglobals in Hfields.
    cbn [fieldDeclarations ret] in Hfields. injection Hfields as <- _.
    by rewrite Hdefs.
Qed.

Lemma dict_get_elem {V : Type} (k : string) (v : V) (d : dict V) :
  dict_get k d = Some v -> (k, v) ∈ d.
Proof.
  induction d as [|[k0 v0] d IH]; [done|]. cbn [dict_get].
  destruct (decide (k0 = k)) as [->|Hne].
  - intros [= ->]. by left.
  - intros Hget. right. by apply IH.
Qed.

Lemma entries_of_cons (definitions : dict def) (fname : string)
    (names : list string) :
  entries_of definitions (fname :: names)
  = match dict_get fname definitions with
    | Some d => (fname, d) :: entries_of definitions names
    | None => entries_of definitions names
    end.
Proof.
  unfold entries_of. cbn [omap list_omap].
  by destruct (dict_get fname definitions).
Qed.

Lemma entries_of_app (definitions : dict def) (names1 names2 : list string) :
  entries_of definitions (names1 ++ names2)
  = entries_of definitions names1 ++ entries_of definitions names2.
Proof.
  induction names1 as [|fname names1 IH]; [done|].
  rewrite <- app_comm_cons, !entries_of_cons, IH.
  by destruct (dict_get fname definitions).
Qed.

Lemma entries_of_elem (definitions : dict def) (names : list string)
    (fname : string) (d : def) :
  NoDup (dict_keys definitions) ->
  (fname, d) ∈ entries_of definitions names
  <-> fname ∈ names /\ (fname, d) ∈ definitions.
Proof.
  intros Hnd. induction names as [|m names IH].
  - split; [by intros ?%elem_of_nil|by intros [?%elem_of_nil _]].
  - rewrite entries_of_cons, (elem_of_cons names).
    destruct (dict_get m definitions) as [d'|] eqn:Hget.
    + rewrite elem_of_cons, IH. split.
      * intros [Heq|[Hn Hd]].
        -- injection Heq as -> ->. split; [by left|by apply dict_get_elem].
        -- split; [by right|done].
      * intros [[->|Hn] Hd]; [|by right].
        left. apply (dict_get_entry _ _ _ Hnd) in Hd. congruence.
    + rewrite IH. split; [intros [Hn Hd]; split; [by right|done]|].
      intros [[->|Hn] Hd]; [|done].
      apply (dict_get_entry _ _ _ Hnd) in Hd. congruence.
Qed.

Lemma entries_of_emit (definitions : dict def) (names : list string) :
  NoDup (dict_keys definitions) ->
  (forall fname, fname ∈ names -> fname ∈ dict_keys definitions) ->
  (entries_of definitions names).*1 = names
  /\ emitDefinition definitions <$> names
     = emitted <$> entries_of definitions names.
Proof.
  intros Hnd. induction names as [|m names IH]; intros Hkeys; [done|].
  destruct (dict_keys_entry m definitions) as [d Hd];
    [apply Hkeys; by left|].
  apply (dict_get_entry _ _ _ Hnd) in Hd.
  destruct IH as [IH1 IH2]; [intros fname Hin; apply Hkeys; by right|].
  rewrite entries_of_cons, Hd, !fmap_cons, IH1, IH2. split; [done|].
  f_equal. unfold emitDefinition. by rewrite Hd.
Qed.

Lemma group_elem (slot : nat) (definitions : dict def) (fname : string) :
  fname ∈ group slot definitions
  <-> exists d, (fname, d) ∈ definitions
                /\ fname <> "variables" /\ slot_of d = slot.
Proof.
  unfold group, dict_keys. rewrite list_elem_of_fmap. split.
  - intros ([m d] & -> & [Hp Hin]%list_elem_of_filter). by exists d.
  - intros (d & Hin & Hp). exists (fname, d). split; [done|].
    by apply list_elem_of_filter.
Qed.

Lemma take_two_three {A : Type} (x : A) (l : list A) :
  x ∈ take 2 l -> x ∈ take 3 l.
Proof.
  destruct l as [|a [|b [|c l]]]; cbn; try done.
  rewrite !elem_of_cons. tauto.
Qed.

(** C3, as amended: the text that [finish] returns holds, after the
    fields of the globals, the helper definitions, each followed by a
    blank line and preceded by its documentation header: first the
    static-like group, ordered by logical name, then the instance-like
    group, ordered by logical name; the two groups together hold every
    entry of [definitions_] once, the entry named [variables] apart.
    A definition stored as text with [static] among the first two
    pieces between single spaces is in the static-like group; a
    definition stored as a function, and a text without [static] among
    its first three pieces, is in the instance-like group. *)
Theorem C3_finish_emits_static_group_first
    (code text : string) (st : Java) (definitions : dict def) :
  definitions_ st = Some definitions ->
  NoDup (dict_keys definitions) ->
  result (finish code st) = Some text ->
  exists fields statics instances,
    result (fieldDeclarations (for_in (globals_ st)) st) = Some fields
    /\ text
       = Js.end_with_three_line_feeds
           (Js.collapse_blank
              (fields
               +:+ String.concat "" (emitted <$> (statics ++ instances))))
         +:+ code
    /\ Sorted String.le statics.*1
    /\ Sorted String.le instances.*1
    /\ statics ++ instances
       ≡ₚ filter (fun entry => entry.1 <> "variables") definitions
    /\ (forall fname t,
          (fname, DefText t) ∈ definitions -> fname <> "variables" ->
          "static" ∈ take 2 (Js.split " " t) ->
          (fname, DefText t) ∈ statics)
    /\ (forall fname d,
          (fname, d) ∈ definitions -> fname <> "variables" ->
          (forall t, d = DefText t -> "static" ∉ take 3 (Js.split " " t)) ->
          (fname, d) ∈ instances).
Proof.
  intros Hdefs Hnd Hres.
  destruct (variableDB_ st) as [db|] eqn:Hdb.
  2:{ destruct (finish_raises_without_names code st Hdb) as [st' Hr].
      by rewrite Hr in Hres. }
  revert Hres. unfold finish. rewrite bind_get, bind_case.
  destruct (fieldDeclarations_returns (for_in (globals_ st)) st db Hdb)
    as (fields & db' & Hfields & Hwords).
  rewrite Hfields, !bind_modify, bind_case. unfold variableDB_reset.
  cbn [variableDB_ set_functionNames_ set_definitions_ set_variableDB_ ret result].
  rewrite Hdefs. change (default [] (Some definitions)) with definitions.
  intros [= <-].
  assert (forall slot fname, fname ∈ Js.sort (group slot definitions) ->
            fname ∈ dict_keys definitions) as Hkeys.
  { intros slot fname (d & Hin & _)%sort_elem%group_elem.
    by apply (list_elem_of_fmap_2 fst _ (fname, d)). }
  destruct (entries_of_emit definitions _ Hnd (Hkeys 0%nat)) as [Hn0 He0].
  destruct (entries_of_emit definitions _ Hnd (Hkeys 1%nat)) as [Hn1 He1].
  exists fields, (entries_of definitions (Js.sort (group 0 definitions))),
    (entries_of definitions (Js.sort (group 1 definitions))).
  split_and!.
  - done.
  - unfold functionDefinitions.
    by rewrite emissionOrder_groups, !fmap_app, He0, He1.
  - rewrite Hn0. apply sort_Sorted.
  - rewrite Hn1. apply sort_Sorted.
  - apply NoDup_Permutation.
    + apply (NoDup_fmap_1 fst). rewrite fmap_app, Hn0, Hn1.
      rewrite <- emissionOrder_groups, emissionOrder_Permutation.
      by apply NoDup_filter.
    + apply NoDup_filter. by apply (NoDup_fmap_1 fst).
    + intros [fname d]. rewrite elem_of_app, !entries_of_elem by done.
      rewrite !sort_elem, !group_elem, list_elem_of_filter. cbn [fst].
      split.
      * intros [[(d0 & _ & Hne & _) Hin]|[(d0 & _ & Hne & _) Hin]]; done.
      * intros [Hne Hin]. destruct (slot_of_cases d) as [Hslot|Hslot].
        -- left. split; [|done]. by exists d.
        -- right. split; [|done]. by exists d.
  - intros fname t Hin Hne Hstatic.
    apply entries_of_elem; [done|]. split; [|done].
    apply sort_elem, group_elem. exists (DefText t). split_and!; [done..|].
    apply slot_of_static. exists t. split; [done|].
    by apply take_two_three.
  - intros fname d Hin Hne Hstatic.
    apply entries_of_elem; [done|]. split; [|done].
    apply sort_elem, group_elem. exists d. split_and!; [done..|].
    destruct (slot_of_cases d) as [Hslot|Hslot]; [|done].
    apply slot_of_static in Hslot as (t & -> & Ht).
    by destruct (Hstatic t eq_refl).
Qed.

End finish_effects.

Lemma C3_finish_emits_static_group_first_witness :
  exists fields statics instances,
    result (fieldDeclarations (for_in (globals_ stateWithHelpers))
              stateWithHelpers) = Some fields
    /\ default "" (result (finish "body();" stateWithHelpers))
       = Js.end_with_three_line_feeds
           (Js.collapse_blank
              (fields
               +:+ String.concat "" (emitted <$> (statics ++ instances))))
         +:+ "body();"
    /\ Sorted String.le statics.*1
    /\ Sorted String.le instances.*1
    /\ statics ++ instances
       ≡ₚ filter (fun entry => entry.1 <> "variables") sampleHelpers
    /\ (forall fname t,
          (fname, DefText t) ∈ sampleHelpers -> fname <> "variables" ->
          "static" ∈ take 2 (Js.split " " t) ->
          (fname, DefText t) ∈ statics)
    /\ (forall fname d,
          (fname, d) ∈ sampleHelpers -> fname <> "variables" ->
          (forall t, d = DefText t -> "static" ∉ take 3 (Js.split " " t)) ->
          (fname, d) ∈ instances).
Proof.
  refine (C3_finish_emits_static_group_first "body();"
            (default "" (result (finish "body();" stateWithHelpers)))
            stateWithHelpers sampleHelpers _ _ _).
  - reflexivity.
  - vm_compute. repeat constructor; set_solver.
  - vm_compute. reflexivity.
Defined.

Lemma X13_finish_puts_three_line_feeds_before_code_witness :
  exists fields kept n,
    result (fieldDeclarations (for_in (globals_ stateWithGlobal)) stateWithGlobal)
    = Some fields
    /\ Js.collapse_blank
         (fields
          +:+ functionDefinitions (default [] (definitions_ stateWithGlobal)))
       = kept +:+ line_feeds n
    /\ (forall t, kept <> t +:+ Js.NL)
    /\ ~ occurs_in two_blank_lines kept
    /\ default "" (result (finish "body();" stateWithGlobal))
       = kept +:+ two_blank_lines +:+ "body();".
Proof.
  refine (proj1 (X13_finish_puts_three_line_feeds_before_code
                   "body();"
                   (default "" (result (finish "body();" stateWithGlobal)))
                   stateWithGlobal _)).
  vm_compute. reflexivity.
Defined.

(** ** The documentation header of a definition *)

Lemma split_with_separator (sep : ascii) (s : string) :
  Js.has_char sep s = true ->
  exists before next rest,
    Js.split sep s = before :: next :: rest.
Proof.
  induction s as [|a s IH]; [done|]. cbn [Js.has_char Js.split].
  destruct (decide (a = sep)) as [->|Hne].
  - intros _. destruct (Js.split sep s) as [|next rest] eqn:Hs.
    + by destruct s; [|cbn in Hs; repeat case_match].
    + eauto.
  - rewrite bool_decide_eq_false_2 by done. cbn [orb]. intros Hs.
    destruct (IH Hs) as (before & next & rest & ->). eauto.
Qed.

Lemma string_app_not_nil (s t : string) : t <> "" -> s +:+ t <> "".
Proof. intros Ht. destruct s; [done|]. by rewrite string_app_cons. Qed.

(** X14: a definition gets a documentation header exactly when its text
    has an opening parenthesis and no semicolon before the first one. *)
Theorem X14_docHeader_only_for_function_heads (text : string) :
  docHeader text = ""
  <-> Js.has_char "(" text = false
      \/ Js.has_char ";" (List.hd "" (Js.split "(" text)) = true.
Proof.
  unfold docHeader, Js.split_limit.
  destruct (Js.has_char "(" text) eqn:Hparen.
  - destruct (split_with_separator _ _ Hparen) as (before & next & rest & ->).
    cbn [take List.hd]. destruct (Js.has_char ";" before).
    + split; [by right|done].
    + split; [|by intros [?|?]].
      intros Heq. exfalso. revert Heq. cbv zeta.
      apply string_app_not_nil. by rewrite string_app_cons.
  - rewrite (split_without_separator _ _ Hparen). cbn [take].
    split; [by left|done].
Qed.

(** ** The conversion of a value input to a string *)

Section to_string_facts.
Context `{EmitterCollaborators}.

(** X15: [toStringCode] returns the empty text for an input without
    block and does not touch the generator; a value that is empty or
    starts with a double quote is returned trimmed and otherwise
    unchanged; a numeric literal is wrapped in double quotes, unless the
    block is a [variables_get] of type [Var]; in these cases the state
    is the one [valueToCode] left. *)
Theorem X15_toStringCode_keeps_literals
    (block targetBlock : Block) (inputName item : string) (st st1 : Java) :
  getInputTargetBlock block inputName = Some targetBlock ->
  valueToCode block inputName Order.ORDER_NONE st = Ret item st1 ->
  (Js.trim item = "" \/ starts_with_quote (Js.trim item) = true ->
   toStringCode block inputName st = Ret (Js.trim item) st1)
  /\ (Js.trim item <> "" -> starts_with_quote (Js.trim item) = false ->
      isNumber (Js.trim item) = true ->
      (block_type targetBlock <> "variables_get"
       \/ GetVariableType
            (procedurePrefix_ targetBlock +:+ getFieldValue targetBlock "VAR")
            st1 <> "Var") ->
      toStringCode block inputName st
      = Ret (Js.DQ +:+ Js.trim item +:+ Js.DQ) st1)
  /\ (forall otherBlock otherName s,
        getInputTargetBlock otherBlock otherName = None ->
        toStringCode otherBlock otherName s = Ret "" s).
Proof.
  intros Htarget Hvalue. split_and!.
  - intros Hliteral. unfold toStringCode.
    rewrite Htarget, bind_case, Hvalue, bind_get.
    destruct Hliteral as [-> | ->]; [done|].
    by rewrite andb_false_r.
  - intros Hne Hquote Hnumber Hvar. unfold toStringCode.
    rewrite Htarget, bind_case, Hvalue, bind_get.
    rewrite Hquote, bool_decide_eq_false_2 by done. cbn [negb andb].
    rewrite Hnumber.
    destruct Hvar as [Htype|Hvar].
    + by rewrite (bool_decide_eq_false_2 _ Htype).
    + rewrite (bool_decide_eq_false_2 _ Hvar). by rewrite andb_false_r.
  - intros otherBlock otherName s Hnone. unfold toStringCode.
    by rewrite Hnone.
Qed.

End to_string_facts.

Lemma X15_toStringCode_keeps_literals_witness :
  toStringCode
    (mkBlock "text_print" None None
       [(INPUT_VALUE, Some (leafBlock "42" None (Some true)))] None None)
    "TEXT" initialJava
  = Ret (Js.DQ +:+ "42" +:+ Js.DQ) initialJava.
Proof.
  refine (proj1 (proj2
    (@X15_toStringCode_keeps_literals sampleCollaborators sampleEmitter
       (mkBlock "text_print" None None
          [(INPUT_VALUE, Some (leafBlock "42" None (Some true)))] None None)
       (leafBlock "42" None (Some true)) "TEXT" " 42 "
       initialJava initialJava _ _)) _ _ _ _).
  - reflexivity.
  - reflexivity.
  - discriminate.
  - reflexivity.
  - reflexivity.
  - left. discriminate.
Defined.

(** * The timer *)

Lemma timer_stop_settled (t : Timer.Timer) :
  Timer.running t -> Timer.settled (Timer.stop t).
Proof.
  intros [Hid Ht]. unfold Timer.stop, Timer.hasTimer.
  destruct (Timer.timer_ t) as [id|] eqn:Htimer.
  - destruct Ht as (Hne & _ & delay & Hpending).
    rewrite (proj2 (Z.eqb_neq id 0) Hne). cbn [negb].
    split; [|done]. split; [done|]. cbn. rewrite Hpending.
    rewrite filter_cons, decide_False by (cbn; tauto). done.
  - split; [|done]. split; [done|]. exact Ht.
Qed.

Lemma timer_start_settled (now : Z) (t : Timer.Timer) :
  Timer.running t ->
  Timer.settled (Timer.start now t) /\ Timer.enabled (Timer.start now t) = true.
Proof.
  intros [Hid Ht]. unfold Timer.start, Timer.hasTimer.
  destruct (Timer.timer_ t) as [id|] eqn:Htimer.
  - destruct Ht as (Hne & Hen & delay & Hpending).
    rewrite (proj2 (Z.eqb_neq id 0) Hne). cbn [negb].
    split; [|done]. split; [|done].
    split; [done|]. cbn. eauto.
  - cbn. split; [|done]. split; [|done]. split; [cbn; lia|].
    cbn. rewrite Ht. split_and!; [lia|done|eauto].
Qed.

Lemma timer_setInterval_running (interval now : Z) (t : Timer.Timer) :
  Timer.running t -> Timer.running (Timer.setInterval interval now t).
Proof.
  intros Hrun. unfold Timer.setInterval.
  set (t' := Timer.mkTimer interval _ _ _ _).
  assert (Timer.running t') as Hrun' by exact Hrun.
  destruct (Timer.hasTimer t' && Timer.enabled t').
  - apply timer_start_settled. by apply timer_stop_settled.
  - destruct (Timer.hasTimer t'); [by apply timer_stop_settled|done].
Qed.

Lemma timer_setInterval_settled (interval now : Z) (t : Timer.Timer) :
  Timer.settled t -> Timer.settled (Timer.setInterval interval now t).
Proof.
  intros [Hrun Hoff]. unfold Timer.setInterval.
  set (t' := Timer.mkTimer interval _ _ _ _).
  assert (Timer.running t') as Hrun' by exact Hrun.
  destruct (Timer.hasTimer t' && Timer.enabled t').
  - apply timer_start_settled. by apply timer_stop_settled.
  - destruct (Timer.hasTimer t'); [by apply timer_stop_settled|].
    split; [done|exact Hoff].
Qed.

Lemma timer_run_call_running (t : Timer.Timer) (c : Timer.call) :
  Timer.running t -> Timer.running (Timer.run_call t c).
Proof.
  intros Hrun. destruct c as [now| |interval now]; cbn [Timer.run_call].
  - by apply timer_start_settled.
  - by apply timer_stop_settled.
  - by apply timer_setInterval_running.
Qed.

Lemma timer_run_call_settled (t : Timer.Timer) (c : Timer.call) :
  Timer.settled t -> Timer.settled (Timer.run_call t c).
Proof.
  intros Hset. destruct c as [now| |interval now]; cbn [Timer.run_call].
  - apply timer_start_settled, Hset.
  - apply timer_stop_settled, Hset.
  - by apply timer_setInterval_settled.
Qed.

Section timer_events.
Variable belowScaledInterval : Z -> Z -> bool.

Lemma timer_tick_running (now later : Z) (t : Timer.Timer) :
  0 < Timer.nextId (Timer.timerObject_ t) ->
  Timer.pending (Timer.timerObject_ t) = [] ->
  Timer.enabled t = true ->
  (forall id, Timer.timer_ t = Some id -> id <> 0) ->
  Timer.running
    (Timer.state_of (Timer.tick_ belowScaledInterval now later t)).
Proof.
  destruct t as [interval enabled timer last [pending nextId]].
  cbn [Timer.timerObject_ Timer.pending Timer.nextId Timer.enabled
         Timer.timer_].
  intros Hid -> -> Hne. unfold Timer.tick_.
  cbn [Timer.enabled Timer.last_ Timer.interval_ Timer.timerObject_].
  destruct (_ && _).
  - cbn. split; [cbn; lia|]. split_and!; [lia|done|eauto].
  - unfold Timer.dispatchTick. cbn [Timer.state_of].
    unfold Timer.hasTimer. cbn [Timer.timer_].
    destruct timer as [id|]; [|done].
    rewrite (proj2 (Z.eqb_neq id 0) (Hne id eq_refl)). done.
Qed.

Lemma timer_fire_running (now later : Z) (t : Timer.Timer) :
  Timer.running t ->
  Timer.running
    (Timer.state_of (Timer.fire belowScaledInterval now later t)).
Proof.
  intros Hrun. unfold Timer.fire.
  destruct (Timer.pending (Timer.timerObject_ t)) as [|[id d] rest] eqn:Hpending;
    [done|].
  destruct Hrun as [Hid Ht].
  destruct (Timer.timer_ t) as [id'|] eqn:Htimer; [|by rewrite Hpending in Ht].
  destruct Ht as (Hne & Hen & delay & Hpending').
  rewrite Hpending in Hpending'. injection Hpending' as -> -> ->.
  apply timer_tick_running.
  - done.
  - cbn. rewrite Hpending, filter_cons, decide_False by (cbn; tauto). done.
  - exact Hen.
  - cbn. intros id [= <-]. exact Hne.
Qed.

Lemma timer_run_events_running (events : list Timer.event) (t : Timer.Timer) :
  Timer.running t ->
  Timer.running (Timer.run_events belowScaledInterval events t).
Proof.
  unfold Timer.run_events. revert t.
  induction events as [|e events IH]; intros t Hrun; [done|].
  cbn [fold_left]. apply IH. destruct e as [c|now later].
  - by apply timer_run_call_running.
  - by apply timer_fire_running.
Qed.

Lemma timer_run_calls_settled (events : list Timer.event) (t : Timer.Timer) :
  Forall Timer.is_call events ->
  Timer.settled t ->
  Timer.settled (Timer.run_events belowScaledInterval events t).
Proof.
  unfold Timer.run_events. intros Hcalls. revert t.
  induction Hcalls as [|e events He _ IH]; intros t Hset; [done|].
  cbn [fold_left]. apply IH. destruct e as [c|now later]; [|done].
  by apply timer_run_call_settled.
Qed.

(** X16: whatever methods are called on a new timer and whatever
    timeouts fire, at most one timeout of the timer is pending, it is
    the one whose handle the timer holds, and only an enabled timer has
    one; as long as no timeout has fired, a timeout is pending exactly
    when the timer is enabled. *)
Theorem X16_timer_has_at_most_one_timeout
    (events : list Timer.event) (opt_interval : option Z)
    (timerObject : Timer.TimerObject) (now : Z) :
  0 < Timer.nextId timerObject ->
  Timer.pending timerObject = [] ->
  (length
     (Timer.pending
        (Timer.timerObject_
           (Timer.run_events belowScaledInterval events
              (Timer.new opt_interval timerObject now)))) <= 1)%nat
  /\ (forall p,
        p ∈ Timer.pending
              (Timer.timerObject_
                 (Timer.run_events belowScaledInterval events
                    (Timer.new opt_interval timerObject now))) ->
        Timer.enabled
          (Timer.run_events belowScaledInterval events
             (Timer.new opt_interval timerObject now)) = true
        /\ Timer.timer_
             (Timer.run_events belowScaledInterval events
                (Timer.new opt_interval timerObject now)) = Some p.1)
  /\ (Forall Timer.is_call events ->
      (Timer.enabled
         (Timer.run_events belowScaledInterval events
            (Timer.new opt_interval timerObject now)) = true
       <-> Timer.pending
             (Timer.timerObject_
                (Timer.run_events belowScaledInterval events
                   (Timer.new opt_interval timerObject now))) <> [])).
Proof.
  intros Hid Hpending.
  assert (Timer.settled (Timer.new opt_interval timerObject now)) as Hnew.
  { split; [|done]. split; [done|]. exact Hpending. }
  split_and!.
  - destruct Hnew as [Hnew _].
    apply (timer_run_events_running events) in Hnew.
    destruct Hnew as [_ Ht].
    destruct (Timer.timer_ _) as [id|].
    + destruct Ht as (_ & _ & delay & ->). cbn; lia.
    + rewrite Ht. cbn; lia.
  - destruct Hnew as [Hnew _].
    apply (timer_run_events_running events) in Hnew.
    destruct Hnew as [_ Ht]. intros p Hp.
    destruct (Timer.timer_ _) as [id|].
    + destruct Ht as (_ & Hen & delay & Hlist). rewrite Hlist in Hp.
      apply list_elem_of_singleton in Hp as ->. done.
    + rewrite Ht in Hp. by apply elem_of_nil in Hp.
  - intros Hcalls. apply (timer_run_calls_settled events _ Hcalls) in Hnew.
    destruct Hnew as [[_ Ht] Hoff].
    destruct (Timer.timer_ _) as [id|].
    + destruct Ht as (_ & -> & delay & ->). done.
    + rewrite Ht, (Hoff eq_refl). done.
Qed.

(** X20: when a timeout of an enabled timer fires and the time elapsed
    is not below the scaled interval, [tick_] clears the handle and
    calls [dispatchTick], which throws a [TypeError]: no tick is
    dispatched, and the timer is left enabled without a timeout, so it
    does not fire again until [start] is called. *)
Theorem X20_late_tick_throws_and_leaves_no_timeout
    (now later : Z) (t : Timer.Timer) :
  Timer.settled t ->
  Timer.enabled t = true ->
  (0 <? now - Timer.last_ t)
  && belowScaledInterval (now - Timer.last_ t) (Timer.interval_ t) = false ->
  exists t',
    Timer.fire belowScaledInterval now later t
    = Timer.Thrown "this.dispatchEvent is not a function" t'
    /\ Timer.enabled t' = true
    /\ Timer.timer_ t' = None
    /\ Timer.pending (Timer.timerObject_ t') = []
    /\ Timer.last_ t' = Timer.last_ t
    /\ Timer.pending (Timer.timerObject_ (Timer.start later t')) <> [].
Proof.
  destruct t as [interval enabled timer last [pending nextId]].
  intros [[Hid Ht] Hoff].
  cbn [Timer.timerObject_ Timer.pending Timer.nextId Timer.enabled
         Timer.timer_ Timer.last_ Timer.interval_] in *.
  intros -> Hlate.
  destruct timer as [id|]; [|by specialize (Hoff eq_refl)].
  destruct Ht as (Hne & _ & delay & ->).
  unfold Timer.fire, Timer.tick_.
  cbn [Timer.timerObject_ Timer.pending Timer.enabled Timer.last_
         Timer.interval_ Timer.timer_].
  rewrite Hlate. unfold Timer.hasTimer. cbn [Timer.timer_].
  rewrite (proj2 (Z.eqb_neq id 0) Hne). cbn [negb Timer.dispatchTick].
  eexists. split; [reflexivity|]. cbn.
  destruct (decide (id <> id)) as [Hid'|_]; [done|]. cbn.
  split_and!; done.
Qed.

End timer_events.

Lemma X16_timer_has_at_most_one_timeout_witness :
  (length
     (Timer.pending
        (Timer.timerObject_
           (Timer.run_events sampleBelowScaledInterval sampleEvents
              (Timer.new (Some 100%Z) (Timer.mkTimerObject [] 1%Z) 0%Z)))) <= 1)%nat.
Proof.
  apply (X16_timer_has_at_most_one_timeout sampleBelowScaledInterval
           sampleEvents (Some 100) (Timer.mkTimerObject [] 1) 0).
  - reflexivity.
  - reflexivity.
Defined.

Lemma X20_late_tick_throws_and_leaves_no_timeout_witness :
  exists t',
    Timer.fire sampleBelowScaledInterval 200 201
      (Timer.start 5 (Timer.new (Some 100) (Timer.mkTimerObject [] 1) 0))
    = Timer.Thrown "this.dispatchEvent is not a function" t'
    /\ Timer.enabled t' = true
    /\ Timer.timer_ t' = None
    /\ Timer.pending (Timer.timerObject_ t') = []
    /\ Timer.last_ t' = 5
    /\ Timer.pending (Timer.timerObject_ (Timer.start 201 t')) <> [].
Proof.
  apply (X20_late_tick_throws_and_leaves_no_timeout
           sampleBelowScaledInterval 200 201
           (Timer.start 5 (Timer.new (Some 100) (Timer.mkTimerObject [] 1) 0))).
  - split; [|discriminate]. split; [reflexivity|].
    cbn. split_and!; [discriminate|reflexivity|by eexists].
  - reflexivity.
  - reflexivity.
Defined.

(** X17: [setInterval] always records the new interval.  On an enabled
    timer it replaces the pending timeout by one timeout whose delay is
    the new interval, counted from the time of the call; on a stopped
    timer it schedules nothing. *)
Theorem X17_setInterval_restarts_enabled_timer
    (interval now : Z) (t : Timer.Timer) :
  Timer.settled t ->
  Timer.getInterval (Timer.setInterval interval now t) = interval
  /\ Timer.enabled (Timer.setInterval interval now t) = Timer.enabled t
  /\ (Timer.enabled t = true ->
      Timer.last_ (Timer.setInterval interval now t) = now
      /\ exists id,
           Timer.timer_ (Timer.setInterval interval now t) = Some id
           /\ Timer.pending (Timer.timerObject_ (Timer.setInterval interval now t))
              = [(id, interval)])
  /\ (Timer.enabled t = false ->
      Timer.setInterval interval now t
      = Timer.mkTimer interval false None (Timer.last_ t) (Timer.timerObject_ t)
      /\ Timer.pending (Timer.timerObject_ t) = []).
Proof.
  destruct t as [interval0 enabled timer last [pending nextId]].
  intros [[Hid Ht] Hoff].
  cbn [Timer.timerObject_ Timer.pending Timer.nextId Timer.enabled
         Timer.timer_ Timer.last_] in *.
  destruct timer as [id|].
  - destruct Ht as (Hne & -> & delay & ->).
    unfold Timer.setInterval, Timer.hasTimer.
    cbn [Timer.timer_ Timer.enabled].
    rewrite (proj2 (Z.eqb_neq id 0) Hne). cbn [negb andb].
    unfold Timer.stop, Timer.hasTimer. cbn [Timer.timer_].
    rewrite (proj2 (Z.eqb_neq id 0) Hne). cbn [negb].
    cbn. rewrite decide_False by tauto.
    split_and!; [done|done| |done].
    intros _. split; [done|]. by exists nextId.
  - rewrite (Hoff eq_refl), Ht. split_and!; done.
Qed.

Lemma X17_setInterval_restarts_enabled_timer_witness :
  Timer.pending
    (Timer.timerObject_
       (Timer.setInterval 250 40
          (Timer.start 7 (Timer.new (Some 100) (Timer.mkTimerObject [] 1) 0))))
  = [(2, 250)].
Proof.
  destruct (X17_setInterval_restarts_enabled_timer 250 40
              (Timer.start 7 (Timer.new (Some 100) (Timer.mkTimerObject [] 1) 0)))
    as (_ & _ & Hon & _).
  - split; [|discriminate]. split; [reflexivity|].
    cbn. split_and!; [discriminate|reflexivity|by eexists].
  - destruct (Hon eq_refl) as (_ & id & Htimer & Hpending).
    rewrite Hpending. vm_compute in Htimer. injection Htimer as <-.
    reflexivity.
Defined.

(** X18: a second [start] changes nothing: it schedules no other
    timeout and keeps the time of the first; a second [stop] changes
    nothing either. *)
Theorem X18_start_and_stop_are_idempotent (now later : Z) (t : Timer.Timer) :
  Timer.nextId (Timer.timerObject_ t) <> 0 ->
  Timer.start later (Timer.start now t) = Timer.start now t
  /\ Timer.stop (Timer.stop t) = Timer.stop t.
Proof.
  destruct t as [interval enabled timer last [pending nextId]].
  cbn [Timer.timerObject_ Timer.nextId]. intros Hid.
  unfold Timer.start, Timer.stop, Timer.hasTimer. cbn [Timer.timer_].
  destruct timer as [id|].
  - destruct (Z.eqb_spec id 0) as [->|Hne]; cbn.
    + by rewrite (proj2 (Z.eqb_neq nextId 0) Hid).
    + by rewrite (proj2 (Z.eqb_neq id 0) Hne).
  - cbn. by rewrite (proj2 (Z.eqb_neq nextId 0) Hid).
Qed.

Lemma X18_start_and_stop_are_idempotent_witness :
  Timer.start 9 (Timer.start 5 (Timer.new None (Timer.mkTimerObject [] 1) 0))
  = Timer.start 5 (Timer.new None (Timer.mkTimerObject [] 1) 0).
Proof.
  apply (X18_start_and_stop_are_idempotent 5 9
           (Timer.new None (Timer.mkTimerObject [] 1) 0)).
  discriminate.
Defined.

Lemma filter_all {A} (P : A -> Prop) `{!forall x, Decision (P x)} (l : list A) :
  Forall P l -> filter P l = l.
Proof.
  induction 1 as [|x l Hx _ IH]; [done|].
  by rewrite filter_cons, decide_True, IH.
Qed.

(** X19: [callOnce] throws exactly for a listener that is neither a
    function nor an object with a [handleEvent] function.  Otherwise it
    returns the invalid handle exactly when the delay is above the
    largest timeout, and [clear] of the handle it returns leaves the
    pending timeouts as they were before the call. *)
Theorem X19_clear_undoes_callOnce
    (l : Timer.listener) (opt_delay : option Z) (o : Timer.TimerObject) :
  0 <= Timer.nextId o ->
  Forall (fun p => p.1 <> Timer.nextId o /\ p.1 <> Timer.INVALID_TIMEOUT_ID_)
         (Timer.pending o) ->
  match Timer.callOnce l opt_delay o with
  | inl message =>
      message = "Invalid listener argument"
      /\ (l = Timer.ListenerOther \/ l = Timer.ListenerObject false)
  | inr (id, o') =>
      l <> Timer.ListenerOther /\ l <> Timer.ListenerObject false
      /\ (id = Timer.INVALID_TIMEOUT_ID_
          <-> Timer.MAX_TIMEOUT_ < default 0 opt_delay)
      /\ (id = Timer.INVALID_TIMEOUT_ID_ -> o' = o)
      /\ Timer.pending (Timer.clear id o') = Timer.pending o
  end.
Proof.
  intros Hid Hfresh.
  assert (Timer.callOnce Timer.ListenerFunction opt_delay o
          = Timer.callOnce (Timer.ListenerObject true) opt_delay o) as Hsame
    by done.
  assert (match Timer.callOnce Timer.ListenerFunction opt_delay o with
          | inl _ => False
          | inr (id, o') =>
              (id = Timer.INVALID_TIMEOUT_ID_
               <-> Timer.MAX_TIMEOUT_ < default 0 opt_delay)
              /\ (id = Timer.INVALID_TIMEOUT_ID_ -> o' = o)
              /\ Timer.pending (Timer.clear id o') = Timer.pending o
          end) as Hvalid.
  { unfold Timer.callOnce. case_bool_decide as Hdelay.
    - split_and!; [done|done|]. cbn. apply filter_all.
      eapply Forall_impl; [exact Hfresh|]. by intros p [_ ?].
    - unfold Timer.setTimeout, Timer.INVALID_TIMEOUT_ID_.
      split_and!; [split; [lia|done]|lia|].
      cbn. rewrite filter_app, filter_cons, decide_False by (cbn; tauto).
      rewrite filter_nil, app_nil_r. apply filter_all.
      eapply Forall_impl; [exact Hfresh|]. by intros p [? _]. }
  destruct l as [|[|]|].
  - destruct (Timer.callOnce _ _ _) as [|[id o']]; [done|].
    split_and!; [done|done|apply Hvalid..].
  - rewrite <- Hsame.
    destruct (Timer.callOnce _ _ _) as [|[id o']]; [done|].
    split_and!; [done|done|apply Hvalid..].
  - cbn. split; [done|by right].
  - cbn. split; [done|by left].
Qed.

Lemma X19_clear_undoes_callOnce_witness :
  match Timer.callOnce Timer.ListenerFunction (Some 30)
          (Timer.mkTimerObject [(3, 100); (4, 0)] 5) with
  | inl message =>
      message = "Invalid listener argument"
      /\ (Timer.ListenerFunction = Timer.ListenerOther
          \/ Timer.ListenerFunction = Timer.ListenerObject false)
  | inr (id, o') =>
      Timer.ListenerFunction <> Timer.ListenerOther
      /\ Timer.ListenerFunction <> Timer.ListenerObject false
      /\ (id = Timer.INVALID_TIMEOUT_ID_
          <-> Timer.MAX_TIMEOUT_ < default 0 (Some 30))
      /\ (id = Timer.INVALID_TIMEOUT_ID_ ->
          o' = Timer.mkTimerObject [(3, 100); (4, 0)] 5)
      /\ Timer.pending (Timer.clear id o') = [(3, 100); (4, 0)]
  end.
Proof.
  apply (X19_clear_undoes_callOnce Timer.ListenerFunction (Some 30)
           (Timer.mkTimerObject [(3, 100); (4, 0)] 5)).
  - cbn. lia.
  - repeat constructor; cbn; unfold Timer.INVALID_TIMEOUT_ID_; lia.
Defined.
